(** * Publication lifecycle and task handling of pulpcore

    Part one is a shallow embedding of [pulpcore/app/models/publication.py]:
    the [Publication] model with its [create], [delete], [__enter__] and
    [__exit__] methods, the [PublishedArtifact] and [PublishedMetadata]
    models with their [unique_together] constraints, and the part of the
    Django ORM these methods run on (rows keyed by primary key, [save],
    cascading [delete], [transaction.atomic]).  Python objects live in a
    heap and are passed by reference, database rows live in tables keyed
    by primary key, and every method is a computation in a
    state-and-exception monad.  Columns inherited from the base classes
    [MasterModel] and [Model], which are not among the sources, and the
    storage behind the [file] column are left out.

    Part two models the reservation scheduler and the task lifecycle from
    the specification: of the tasking system the sources hold the
    functional tests only ([test_tasking.py]).

    Part three is a shallow embedding of the naming functions of
    [pulpcore/openapi/__init__.py]: tags, serializer names, request
    parsers, path parameter names and the rewriting of endpoint paths. *)

From Stdlib Require Import Ascii.
From stdpp Require Import gmap strings list fin_maps sorting.

Open Scope string_scope.
Open Scope list_scope.

(** ** Python values and exceptions *)

(** Primary keys and object references. *)
Abbreviation ID := nat (only parsing).
Abbreviation ref := nat (only parsing).

(** An exception instance: its class name and its truth value.  Python
    computes [bool(e)] through [__bool__] or [__len__]; [BaseException]
    defines neither, so an exception is true unless its class says
    otherwise. *)
Record exception := Exception {
  exc_class : string;
  exc_bool : bool
}.

Global Instance exception_eq_dec : EqDecision exception.
Proof. solve_decision. Defined.

(** [django.db.IntegrityError]: a uniqueness, primary-key or foreign-key
    constraint refused the statement. *)
Definition IntegrityError : exception := Exception "IntegrityError" true.
(** Raised by [Model.delete] on an instance whose [pk] is [None]. *)
Definition AssertionError : exception := Exception "AssertionError" true.
(** A reference that names no live object; unreachable from Python code. *)
Definition ReferenceError : exception := Exception "ReferenceError" true.

(** The values a context manager's [__exit__] may hand back. *)
Inductive pyval :=
  | PyNone
  | PyBool (b : bool).

(** [bool(v)]. *)
Definition truthy (v : pyval) : bool :=
  match v with
  | PyNone => false
  | PyBool b => b
  end.

(** [bool(exc_val)] where [exc_val] is [None] or an exception instance. *)
Definition exc_truthy (exc_val : option exception) : bool :=
  match exc_val with
  | None => false
  | Some e => exc_bool e
  end.

(** ** The data model *)

(** The columns of [Publication] (lines 45-49). *)
Record PublicationFields := mkPublicationFields {
  complete : bool;
  pass_through : bool;
  publisher : option ID;
  repository_version : ID
}.

(** A [Publication] instance in memory: [pk] is [None] until saved. *)
Record Publication := mkPublication {
  pk : option ID;
  fields : PublicationFields
}.

(** [PublishedFile] (abstract, lines 135-151). *)
Record PublishedFile := mkPublishedFile {
  relative_path : string;
  publication : ID
}.

(** [PublishedArtifact(PublishedFile)] (lines 154-168). *)
Record PublishedArtifact := mkPublishedArtifact {
  pa_file :> PublishedFile;
  content_artifact : ID
}.

(** [PublishedMetadata(PublishedFile)] (lines 171-189); [file] is the
    stored name of the file. *)
Record PublishedMetadata := mkPublishedMetadata {
  pm_file :> PublishedFile;
  file : string
}.

(** Modelled from the spec: [CreatedResource] of [pulpcore.app.models.task],
    a provenance record that links a domain object to the task or scope
    that created it.  [Publication.create] builds it from
    [content_object=publication] and [Publication.delete] selects it by
    [object_id]. *)
Record CreatedResource := mkCreatedResource {
  content_type : string;
  object_id : ID
}.

(** [PublicationDistribution] (lines 235-246): the foreign key to the
    publication is nullable with [on_delete=SET_NULL]. *)
Record PublicationDistribution := mkDistribution {
  dist_name : string;
  base_path : string;
  dist_publication : option ID
}.

Global Instance PublicationFields_eq_dec : EqDecision PublicationFields.
Proof. solve_decision. Defined.
Global Instance PublishedFile_eq_dec : EqDecision PublishedFile.
Proof. solve_decision. Defined.
Global Instance PublishedArtifact_eq_dec : EqDecision PublishedArtifact.
Proof. solve_decision. Defined.
Global Instance PublishedMetadata_eq_dec : EqDecision PublishedMetadata.
Proof. solve_decision. Defined.

(** The tables. *)
Record DB := mkDB {
  publications : gmap ID PublicationFields;
  published_artifacts : gmap ID PublishedArtifact;
  published_metadata : gmap ID PublishedMetadata;
  created_resources : gmap ID CreatedResource;
  distributions : gmap ID PublicationDistribution
}.

(** The whole state: the database, the supply of primary keys (a sequence
    that a rollback does not rewind), and the heap of [Publication]
    instances. *)
Record State := mkState {
  db : DB;
  pk_supply : ID;
  heap : list Publication
}.

Definition empty_db : DB := mkDB ∅ ∅ ∅ ∅ ∅.
Definition initial_state : State := mkState empty_db 1 [].

Definition set_db (d : DB) (st : State) : State :=
  mkState d (pk_supply st) (heap st).
Definition set_heap (h : list Publication) (st : State) : State :=
  mkState (db st) (pk_supply st) h.
Definition set_pk_supply (n : ID) (st : State) : State :=
  mkState (db st) n (heap st).

Definition set_publications (t : gmap ID PublicationFields) (d : DB) : DB :=
  mkDB t (published_artifacts d) (published_metadata d) (created_resources d)
    (distributions d).
Definition set_published_artifacts (t : gmap ID PublishedArtifact) (d : DB) : DB :=
  mkDB (publications d) t (published_metadata d) (created_resources d)
    (distributions d).
Definition set_published_metadata (t : gmap ID PublishedMetadata) (d : DB) : DB :=
  mkDB (publications d) (published_artifacts d) t (created_resources d)
    (distributions d).
Definition set_created_resources (t : gmap ID CreatedResource) (d : DB) : DB :=
  mkDB (publications d) (published_artifacts d) (published_metadata d) t
    (distributions d).

Definition set_complete (b : bool) (f : PublicationFields) : PublicationFields :=
  mkPublicationFields b (pass_through f) (publisher f) (repository_version f).
Definition set_publisher (p : option ID) (f : PublicationFields) : PublicationFields :=
  mkPublicationFields (complete f) (pass_through f) p (repository_version f).

(** ** Computations: state and exceptions *)

Inductive result (A : Type) :=
  | Ok (a : A)
  | Raise (e : exception).
Arguments Ok {A} a.
Arguments Raise {A} e.

(** A statement runs from a state to an outcome and a state: what an
    exception leaves behind stays, unless a transaction rolls it back. *)
Definition M (A : Type) : Type := State -> result A * State.

Definition ret {A} (a : A) : M A := fun st => (Ok a, st).
Definition raise {A} (e : exception) : M A := fun st => (Raise e, st).
Definition bind {A B} (c : M A) (k : A -> M B) : M B := fun st =>
  match c st with
  | (Ok a, st') => k a st'
  | (Raise e, st') => (Raise e, st')
  end.

Global Instance M_ret : MRet M := @ret.
Global Instance M_bind : MBind M := fun A B k c => bind c k.

(** Runs [c] and hands its outcome back as a value, the state kept as
    [c] left it: the [try] of a [try]/[except]. *)
Definition attempt {A} (c : M A) : M (result A) := fun st =>
  (Ok (c st).1, (c st).2).

Definition get_state : M State := fun st => (Ok st, st).
Definition modify (f : State -> State) : M unit := fun st => (Ok tt, f st).

(** [with transaction.atomic(): block]: an exception leaving the block
    rolls the tables back to where the block started, and goes on
    propagating. *)
Definition transaction_atomic {A} (block : M A) : M A := fun st =>
  match block st with
  | (Ok a, st') => (Ok a, st')
  | (Raise e, st') => (Raise e, set_db (db st) st')
  end.

(** The sequence behind the primary keys. *)
Definition next_pk : M ID := fun st =>
  (Ok (pk_supply st), set_pk_supply (S (pk_supply st)) st).

(** Attribute access on a [Publication] instance. *)
Definition getobj (self : ref) : M Publication := fun st =>
  match heap st !! self with
  | Some o => (Ok o, st)
  | None => (Raise ReferenceError, st)
  end.
Definition setobj (self : ref) (o : Publication) : M unit :=
  modify (fun st => set_heap (<[self := o]> (heap st)) st).

(** ** The Django ORM, as far as these models use it *)

(** [cls(...)]: a fresh instance, not yet saved. *)
Definition new_instance (f : PublicationFields) : M ref := fun st =>
  (Ok (length (heap st)), set_heap (heap st ++ [mkPublication None f]) st).

(** [Model.save] on a [Publication].  With a primary key the row is
    updated, or inserted under that key when no row was updated; without
    one the row is inserted under the next key of the sequence, which
    becomes the instance's [pk]. *)
Definition Model_save (self : ref) : M unit :=
  o ← getobj self;
  match pk o with
  | Some k =>
      modify (fun st =>
        set_db (set_publications (<[k := fields o]> (publications (db st))) (db st)) st)
  | None =>
      k ← next_pk;
      st ← get_state;
      if decide (is_Some (publications (db st) !! k)) then raise IntegrityError
      else
        modify (fun st =>
          set_db (set_publications (<[k := fields o]> (publications (db st))) (db st)) st) ;;
        setobj self (mkPublication (Some k) (fields o))
  end.

(** What deleting the [Publication] row [k] does to the tables: rows that
    reference it with [on_delete=CASCADE] go with it (line 148), a
    distribution that references it with [on_delete=SET_NULL] is set to
    null (line 243). *)
Definition set_null (k : ID) (d : PublicationDistribution) : PublicationDistribution :=
  mkDistribution (dist_name d) (base_path d)
    (if decide (dist_publication d = Some k) then None else dist_publication d).

Definition collect_and_delete (k : ID) (d : DB) : DB :=
  mkDB (delete k (publications d))
    (filter (fun kv : ID * PublishedArtifact => publication kv.2 <> k)
       (published_artifacts d))
    (filter (fun kv : ID * PublishedMetadata => publication kv.2 <> k)
       (published_metadata d))
    (created_resources d)
    (set_null k <$> distributions d).

(** [Model.delete]: refuses an instance without primary key, otherwise
    deletes the row and what cascades from it, and resets the instance's
    [pk] to [None]. *)
Definition Model_delete (self : ref) : M unit :=
  o ← getobj self;
  match pk o with
  | None => raise AssertionError
  | Some k =>
      modify (fun st => set_db (collect_and_delete k (db st)) st) ;;
      setobj self (mkPublication None (fields o))
  end.

Module CreatedResource.

(** Modelled from the spec: the constructor of [CreatedResource], as
    [create] calls it, [CreatedResource(content_object=publication)]; the
    entry references the object by its primary key, and an object
    without one has nothing to reference. *)
Definition new (content_object : ref) : M CreatedResource :=
  o ← getobj content_object;
  match pk o with
  | Some k => ret (mkCreatedResource "publication" k)
  | None => raise IntegrityError
  end.

(** Modelled from the spec: [resource.save()] on a new [CreatedResource],
    which registers the provenance entry. *)
Definition save (r : CreatedResource) : M ID :=
  k ← next_pk;
  st ← get_state;
  if decide (is_Some (created_resources (db st) !! k)) then raise IntegrityError
  else
    modify (fun st =>
      set_db (set_created_resources (<[k := r]> (created_resources (db st))) (db st)) st) ;;
    ret k.

(** Modelled from the spec: the query of [Publication.delete] on the
    [CreatedResource] table,
    [CreatedResource.objects.filter(object_id=oid).delete()]; no row has
    a null [object_id]. *)
Definition objects_filter_delete (oid : option ID) : M unit :=
  match oid with
  | None => ret tt
  | Some k =>
      modify (fun st =>
        set_db (set_created_resources
                  (filter (fun kv : ID * CreatedResource => object_id kv.2 <> k)
                     (created_resources (db st))) (db st)) st)
  end.

End CreatedResource.

Module PublishedArtifact.

(** [unique_together] (lines 165-168): a row of the table stands in the
    way of [a]. *)
Definition conflicts (a r : PublishedArtifact) : Prop :=
  publication r = publication a /\
  (content_artifact r = content_artifact a \/ relative_path r = relative_path a).

Global Instance conflicts_dec a r : Decision (conflicts a r).
Proof. unfold conflicts. apply _. Defined.

(** [artifact.save()] on a new instance: the insert is refused when a
    uniqueness constraint or the foreign key to the publication does
    not hold. *)
Definition save (a : PublishedArtifact) : M ID :=
  st ← get_state;
  if decide (map_Exists (fun _ r => conflicts a r) (published_artifacts (db st)))
  then raise IntegrityError
  else if decide (is_Some (publications (db st) !! publication a)) then
    k ← next_pk;
    if decide (is_Some (published_artifacts (db st) !! k)) then raise IntegrityError
    else
      modify (fun st =>
        set_db (set_published_artifacts
                  (<[k := a]> (published_artifacts (db st))) (db st)) st) ;;
      ret k
  else raise IntegrityError.

End PublishedArtifact.

Module PublishedMetadata.

(** [unique_together] (lines 186-189). *)
Definition conflicts (m r : PublishedMetadata) : Prop :=
  publication r = publication m /\
  (file r = file m \/ relative_path r = relative_path m).

Global Instance conflicts_dec m r : Decision (conflicts m r).
Proof. unfold conflicts. apply _. Defined.

(** [metadata.save()] on a new instance. *)
Definition save (m : PublishedMetadata) : M ID :=
  st ← get_state;
  if decide (map_Exists (fun _ r => conflicts m r) (published_metadata (db st)))
  then raise IntegrityError
  else if decide (is_Some (publications (db st) !! publication m)) then
    k ← next_pk;
    if decide (is_Some (published_metadata (db st) !! k)) then raise IntegrityError
    else
      modify (fun st =>
        set_db (set_published_metadata
                  (<[k := m]> (published_metadata (db st))) (db st)) st) ;;
      ret k
  else raise IntegrityError.

End PublishedMetadata.

(** ** [class Publication] *)

Module Publication.

(** [Publication.create] (lines 51-84). *)
Definition create (repository_version : ID) (publisher : option ID)
    (pass_through : bool) : M ref :=
  transaction_atomic (
    publication ←
      new_instance (mkPublicationFields false pass_through None repository_version);
    (match publisher with
     | Some _ =>
         o ← getobj publication;
         setobj publication (mkPublication (pk o) (set_publisher publisher (fields o)))
     | None => ret tt
     end) ;;
    Model_save publication ;;
    resource ← CreatedResource.new publication;
    CreatedResource.save resource ;;
    ret publication).

(** [Publication.delete] (lines 96-108). *)
Definition delete (self : ref) : M unit :=
  transaction_atomic (
    o ← getobj self;
    CreatedResource.objects_filter_delete (pk o) ;;
    Model_delete self).

(** [Publication.__enter__] (lines 110-117). *)
Definition __enter__ (self : ref) : M ref := ret self.

(** [Publication.__exit__] (lines 119-132).  The method has no [return]:
    it hands back [None]. *)
Definition __exit__ (self : ref) (exc_type : option string)
    (exc_val : option exception) (exc_tb : option unit) : M pyval :=
  if negb (exc_truthy exc_val) then
    o ← getobj self;
    setobj self (mkPublication (pk o) (set_complete true (fields o))) ;;
    Model_save self ;;
    ret PyNone
  else
    delete self ;;
    ret PyNone.

End Publication.

(** [with mgr as target: body], for a [Publication] as context manager:
    [__exit__] runs on both ways out of the body, and an exception from
    the body propagates unless [__exit__] returns a true value. *)
Definition with_statement (mgr : ref) (body : ref -> M unit) : M unit :=
  target ← Publication.__enter__ mgr;
  outcome ← attempt (body target);
  match outcome with
  | Ok _ =>
      Publication.__exit__ mgr None None None ;;
      ret tt
  | Raise e =>
      suppress ← Publication.__exit__ mgr (Some (exc_class e)) (Some e) (Some tt);
      if truthy suppress then ret tt else raise e
  end.

(** The publication scope of the class docstring (lines 33-40):
    [with Publication.create(repository_version, publisher) as publication: body]. *)
Definition publication_scope (repository_version : ID) (publisher : option ID)
    (pass_through : bool) (body : ref -> M unit) : M unit :=
  mgr ← Publication.create repository_version publisher pass_through;
  with_statement mgr body.

(** ** Derived notions used in the statements *)

(** The tables after [Publication.delete] on the saved publication [k]:
    the provenance entries of the row go first, then the row and what
    cascades from it. *)
Definition deleted_db (k : ID) (d : DB) : DB :=
  collect_and_delete k
    (set_created_resources
       (filter (fun kv : ID * CreatedResource => object_id kv.2 <> k)
          (created_resources d)) d).

(** The row [create] writes. *)
Definition created_fields (rv : ID) (publisher : option ID) (pt : bool) :
    PublicationFields :=
  mkPublicationFields false pt publisher rv.

(** No row of any table belongs to publication [k]. *)
Definition no_trace_of (k : ID) (d : DB) : Prop :=
  publications d !! k = None /\
  (forall i (a : PublishedArtifact),
     published_artifacts d !! i = Some a -> publication a <> k) /\
  (forall i (m : PublishedMetadata),
     published_metadata d !! i = Some m -> publication m <> k) /\
  (forall i r, created_resources d !! i = Some r -> object_id r <> k).

(** What a distribution collaborator reads: the publications it may
    serve are those with [complete=True]. *)
Definition servable (d : DB) : gmap ID PublicationFields :=
  filter (fun kv : ID * PublicationFields => complete kv.2 = true) (publications d).

(** ** The body of a scope, as in the class docstring (lines 33-40) *)

(** Raised by [save] when a foreign key points to an unsaved instance. *)
Definition ValueError : exception := Exception "ValueError" true.

(** [PublishedArtifact(publication=publication, ...).save()]. *)
Definition add_artifact (publication : ref) (content_artifact : ID)
    (relative_path : string) : M unit :=
  o ← getobj publication;
  match pk o with
  | Some k =>
      PublishedArtifact.save
        (mkPublishedArtifact (mkPublishedFile relative_path k) content_artifact) ;;
      ret tt
  | None => raise ValueError
  end.

(** [PublishedMetadata(publication=publication, ...).save()]. *)
Definition add_metadata_file (publication : ref) (file : string)
    (relative_path : string) : M unit :=
  o ← getobj publication;
  match pk o with
  | Some k =>
      PublishedMetadata.save
        (mkPublishedMetadata (mkPublishedFile relative_path k) file) ;;
      ret tt
  | None => raise ValueError
  end.

(** Sample scopes: one that publishes two files, one that publishes them
    and then fails with an ordinary exception, and one that fails with an
    exception whose truth value is false (a class with [__bool__] or
    [__len__], such as a response object that is also an exception). *)
Definition publish_two_files (publication : ref) : M unit :=
  add_artifact publication 7 "pool/a.rpm" ;;
  add_metadata_file publication "repomd-1" "repodata/repomd.xml".

Definition RuntimeError : exception := Exception "RuntimeError" true.
Definition EmptyResponseError : exception := Exception "EmptyResponseError" false.

Definition publish_then_fail (publication : ref) : M unit :=
  publish_two_files publication ;;
  raise RuntimeError.

Definition publish_then_fail_falsy (publication : ref) : M unit :=
  publish_two_files publication ;;
  raise EmptyResponseError.

(** The states the sample scopes go through, from the empty database. *)
Definition sample_created : State :=
  (Publication.create 5 (Some 3) false initial_state).2.
Definition sample_built : State := (publish_two_files 0 sample_created).2.
Definition sample_publication : Publication :=
  mkPublication (Some 1) (created_fields 5 (Some 3) false).

(** A database whose [CreatedResource] table already holds a row under
    the key the sequence hands out second: the provenance entry of the
    next [create] cannot be inserted. *)
Definition clashing_state : State :=
  mkState
    (set_created_resources {[2 := mkCreatedResource "repository" 9]} empty_db)
    1 [].

(** One published artifact and one metadata file of publication 1. *)
Definition first_artifact : PublishedArtifact :=
  mkPublishedArtifact (mkPublishedFile "pool/a.rpm" 1) 7.
Definition first_metadata : PublishedMetadata :=
  mkPublishedMetadata (mkPublishedFile "repodata/repomd.xml" 1) "repomd-1".

(** ** The methods as calls *)

(** A call of one of the methods of the module, by any caller. *)
Inductive call :=
  | Create (repository_version : ID) (publisher : option ID) (pass_through : bool)
  | Delete (self : ref)
  | Enter (self : ref)
  | Exit (self : ref) (exc_type : option string) (exc_val : option exception)
      (exc_tb : option unit)
  | SaveArtifact (a : PublishedArtifact)
  | SaveMetadata (m : PublishedMetadata).

(** The state a call leaves, whether it returns or raises. *)
Definition perform (c : call) (st : State) : State :=
  match c with
  | Create rv publ pt => (Publication.create rv publ pt st).2
  | Delete self => (Publication.delete self st).2
  | Enter self => (Publication.__enter__ self st).2
  | Exit self ty ev tb => (Publication.__exit__ self ty ev tb st).2
  | SaveArtifact a => (PublishedArtifact.save a st).2
  | SaveMetadata m => (PublishedMetadata.save m st).2
  end.

(** A run of calls, one after the other. *)
Definition perform_all (cs : list call) (st : State) : State :=
  foldl (fun s c => perform c s) st cs.

(** ** Consistency of the tables *)

(** The foreign keys hold: every published file belongs to a publication
    that has a row (line 148), and so does every distribution that names
    a publication (line 243). *)
Definition references_hold (d : DB) : Prop :=
  (forall i (a : PublishedArtifact),
     published_artifacts d !! i = Some a ->
     is_Some (publications d !! publication a)) /\
  (forall i (m : PublishedMetadata),
     published_metadata d !! i = Some m ->
     is_Some (publications d !! publication m)) /\
  (forall i x k,
     distributions d !! i = Some x -> dist_publication x = Some k ->
     is_Some (publications d !! k)).

(** [unique_together] (lines 165-168 and 186-189) holds of the tables: no
    two rows of one publication share a content artifact, a file or a
    relative path. *)
Definition unique_together (d : DB) : Prop :=
  (forall i j (a b : PublishedArtifact),
     published_artifacts d !! i = Some a ->
     published_artifacts d !! j = Some b ->
     i <> j -> ~ PublishedArtifact.conflicts a b) /\
  (forall i j (m n : PublishedMetadata),
     published_metadata d !! i = Some m ->
     published_metadata d !! j = Some n ->
     i <> j -> ~ PublishedMetadata.conflicts m n).

(** Nothing in the tables refers to the key [k]: no row of publication
    [k], and no distribution that serves it. *)
Definition unreferenced (k : ID) (d : DB) : Prop :=
  no_trace_of k d /\
  (forall i x, distributions d !! i = Some x -> dist_publication x <> Some k).

(** ** Bodies that publish a list of files *)

(** What the body of a scope saves: a published artifact or a metadata
    file (docstring, lines 36-40). *)
Inductive entry :=
  | Artifact (content_artifact : ID) (relative_path : string)
  | Metadata (file : string) (relative_path : string).

Definition add_entry (publication : ref) (e : entry) : M unit :=
  match e with
  | Artifact c p => add_artifact publication c p
  | Metadata f p => add_metadata_file publication f p
  end.

(** [for e in es: save e], stopping at the first exception. *)
Fixpoint add_entries (publication : ref) (es : list entry) : M unit :=
  match es with
  | [] => ret tt
  | e :: es' => add_entry publication e ;; add_entries publication es'
  end.

(** A body that saves the entries and then raises [e]. *)
Definition failing_body (es : list entry) (e : exception) (publication : ref) :
    M unit :=
  add_entries publication es ;;
  raise e.

(** A body that gives the publication up itself and then raises: it
    publishes the two files, calls [publication.delete()] and raises. *)
Definition delete_then_fail (publication : ref) : M unit :=
  publish_two_files publication ;;
  Publication.delete publication ;;
  raise RuntimeError.

(** A database of two publications with a file each, a provenance entry
    of another content type under the object id of the first, and two
    distributions. *)
Definition two_publications : DB :=
  mkDB
    {[1 := created_fields 5 None false; 2 := created_fields 6 None false]}
    {[10 := mkPublishedArtifact (mkPublishedFile "pool/a.rpm" 1) 7;
      11 := mkPublishedArtifact (mkPublishedFile "pool/a.rpm" 2) 7]}
    {[12 := mkPublishedMetadata (mkPublishedFile "repodata/repomd.xml" 1) "repomd-1"]}
    {[3 := mkCreatedResource "publication" 1;
      4 := mkCreatedResource "repository" 1;
      5 := mkCreatedResource "publication" 2]}
    {[20 := mkDistribution "stable" "pub/stable" (Some 1);
      21 := mkDistribution "testing" "pub/testing" (Some 2)]}.

Definition two_publications_state : State :=
  mkState two_publications 30
    [mkPublication (Some 1) (created_fields 5 None false);
     mkPublication (Some 2) (created_fields 6 None false)].

(** The tables [create] leaves when it returns: the publication's row
    under the next key of the sequence and its provenance entry under the
    one after. *)
Definition created_db (rv : ID) (publisher : option ID) (pt : bool) (st : State) : DB :=
  set_created_resources
    (<[S (pk_supply st) := mkCreatedResource "publication" (pk_supply st)]>
       (created_resources (db st)))
    (set_publications
       (<[pk_supply st := created_fields rv publisher pt]>
          (publications (db st))) (db st)).

(** What one call can do to the tables: nothing, the deletion of a
    publication with what belongs to it, the writing of a [Publication]
    row, the two inserts of [create], or the insert of a published file
    that passed its checks. *)
Inductive table_change (d : DB) : DB -> Prop :=
  | unchanged : table_change d d
  | publication_deleted k : table_change d (deleted_db k d)
  | publication_written k f :
      table_change d (set_publications (<[k := f]> (publications d)) d)
  | publication_created k f j r :
      table_change d
        (set_created_resources (<[j := r]> (created_resources d))
           (set_publications (<[k := f]> (publications d)) d))
  | artifact_added k (a : PublishedArtifact) :
      (forall i r, published_artifacts d !! i = Some r ->
                   ~ PublishedArtifact.conflicts a r) ->
      is_Some (publications d !! publication a) ->
      published_artifacts d !! k = None ->
      table_change d
        (set_published_artifacts (<[k := a]> (published_artifacts d)) d)
  | metadata_added k (m : PublishedMetadata) :
      (forall i r, published_metadata d !! i = Some r ->
                   ~ PublishedMetadata.conflicts m r) ->
      is_Some (publications d !! publication m) ->
      published_metadata d !! k = None ->
      table_change d
        (set_published_metadata (<[k := m]> (published_metadata d)) d).

(** The sequence of primary keys is ahead of the tables and of the
    instances in memory: every key in use, and every object id a
    provenance entry holds, is below the next key. *)
Definition keys_below_supply (st : State) : Prop :=
  (forall k, is_Some (publications (db st) !! k) -> k < pk_supply st) /\
  (forall k, is_Some (published_artifacts (db st) !! k) -> k < pk_supply st) /\
  (forall k, is_Some (published_metadata (db st) !! k) -> k < pk_supply st) /\
  (forall k, is_Some (created_resources (db st) !! k) -> k < pk_supply st) /\
  (forall i r, created_resources (db st) !! i = Some r ->
               object_id r < pk_supply st) /\
  (forall i o k, heap st !! i = Some o -> pk o = Some k -> k < pk_supply st).

(** * Tasks: reservation scheduler and task lifecycle

    Modelled from the spec: the reservation scheduler, the resource
    registry and the task lifecycle manager (sections 3, 4.1, 4.2 and 5).
    Their code is not part of the sources at hand, which hold only the
    functional tests of the tasking system; the definitions below follow
    the words of the spec. *)

Module Tasking.

Inductive mode := exclusive | shared.

Inductive task_state :=
  | waiting | running | canceling | completed | failed | canceled.

(** Modelled from the spec: the error taxonomy of section 7, as far as
    tasks raise it. *)
Inductive error := InvalidRequest | ResourceTimeout | Conflict | NotFound.

(** Modelled from the spec: what a task does to the domain object behind
    a resource key, the update of the remote and the sync from it of the
    locking test, or something that touches no field. *)
Inductive action :=
  | Update (key : string) (value : nat)
  | Sync (key : string)
  | Idle.

Global Instance mode_eq_dec : EqDecision mode.
Proof. solve_decision. Defined.
Global Instance task_state_eq_dec : EqDecision task_state.
Proof. solve_decision. Defined.
Global Instance action_eq_dec : EqDecision action.
Proof. solve_decision. Defined.

(** Modelled from the spec: the task record of section 3; [observed] is
    what a sync read from the object it synced from. *)
Record Task := mkTask {
  state : task_state;
  requires : list (string * mode);
  work : action;
  submitted_at : nat;
  started_at : option nat;
  finished_at : option nat;
  error_detail : option error;
  observed : option nat
}.

(** Modelled from the spec: a holder entry of the resource registry. *)
Record Holder := mkHolder {
  held_key : string;
  held_by : ID;
  held_mode : mode
}.

Global Instance Holder_eq_dec : EqDecision Holder.
Proof. solve_decision. Defined.

(** Modelled from the spec: the scheduler with its FIFO queue, the
    registry of holders, the task records, the CreatedResource entries
    (owning task, created object), the field of each domain object by
    resource key, and a logical clock for the timestamps. *)
Record System := mkSystem {
  tasks : gmap ID Task;
  queue : list ID;
  holders : list Holder;
  created : list (ID * ID);
  objects : gmap string nat;
  clock : nat
}.

Inductive outcome :=
  | Done (sys : System)
  | Rejected (e : error).

Definition boot (objs : gmap string nat) : System :=
  mkSystem ∅ [] [] [] objs 0.

Definition terminal (s : task_state) : bool :=
  match s with
  | completed | failed | canceled => true
  | _ => false
  end.

Definition active (s : task_state) : bool :=
  match s with
  | running | canceling => true
  | _ => false
  end.

Definition set_state (s : task_state) (t : Task) : Task :=
  mkTask s (requires t) (work t) (submitted_at t) (started_at t)
    (finished_at t) (error_detail t) (observed t).

(** ** Reservation scheduler (section 4.1) *)

(** Modelled from the spec: a key requested in both modes. *)
Definition conflicting_modes (reqs : list (string * mode)) : bool :=
  existsb (fun r =>
    existsb (fun r' => bool_decide (r.1 = r'.1 /\ r.2 <> r'.2)) reqs) reqs.

(** Modelled from the spec: [reserve(task_id, resource_set)] enqueues the
    task; an empty set, a key requested in conflicting modes, or an
    identifier already in use is an invalid request. *)
Definition reserve (id : ID) (reqs : list (string * mode)) (w : action)
    (sys : System) : outcome :=
  if bool_decide (reqs = []) || conflicting_modes reqs then Rejected InvalidRequest
  else
    match tasks sys !! id with
    | Some _ => Rejected InvalidRequest
    | None =>
        Done (mkSystem
                (<[id := mkTask waiting reqs w (clock sys) None None None None]>
                   (tasks sys))
                (queue sys ++ [id]) (holders sys) (created sys) (objects sys)
                (S (clock sys)))
    end.

(** Modelled from the spec: compatibility of one request with the current
    holders; an exclusive request needs the key without holder, a shared
    one needs it without exclusive holder. *)
Definition compatible (hs : list Holder) (r : string * mode) : bool :=
  match r.2 with
  | exclusive => forallb (fun h => negb (bool_decide (held_key h = r.1))) hs
  | shared =>
      forallb (fun h =>
        negb (bool_decide (held_key h = r.1 /\ held_mode h = exclusive))) hs
  end.

(** Modelled from the spec: a queued task is runnable when every request
    is compatible with the holders and none of its keys is awaited by a
    task queued before it (later same-resource tasks wait behind it). *)
Definition runnable (hs : list Holder) (blocked : list string)
    (reqs : list (string * mode)) : bool :=
  forallb (compatible hs) reqs &&
  forallb (fun r => negb (bool_decide (r.1 ∈ blocked))) reqs.

Definition entries (id : ID) (reqs : list (string * mode)) : list Holder :=
  map (fun r => mkHolder r.1 id r.2) reqs.

(** Modelled from the spec: one pass over the queue in FIFO order, giving
    the tasks started, the tasks left queued, the holders afterwards. *)
Fixpoint scan (reqs_of : ID -> list (string * mode)) (q : list ID)
    (hs : list Holder) (blocked : list string)
    : list ID * list ID * list Holder :=
  match q with
  | [] => ([], [], hs)
  | id :: q' =>
      if runnable hs blocked (reqs_of id) then
        let '(started, rest, hs') :=
          scan reqs_of q' (hs ++ entries id (reqs_of id)) blocked in
        (id :: started, rest, hs')
      else
        let '(started, rest, hs') :=
          scan reqs_of q' hs (blocked ++ map fst (reqs_of id)) in
        (started, id :: rest, hs')
  end.

Definition requirements (ts : gmap ID Task) (id : ID) : list (string * mode) :=
  match ts !! id with
  | Some t => requires t
  | None => []
  end.

Definition start (now : nat) (t : Task) : Task :=
  mkTask running (requires t) (work t) (submitted_at t) (Some now)
    (finished_at t) (error_detail t) (observed t).

Definition start_all (now : nat) (started : list ID) (ts : gmap ID Task)
    : gmap ID Task :=
  foldr (fun id acc => alter (start now) id acc) ts started.

(** Modelled from the spec: [dispatch()]. *)
Definition dispatch (sys : System) : System :=
  let '(started, rest, hs) :=
    scan (requirements (tasks sys)) (queue sys) (holders sys) [] in
  mkSystem (start_all (clock sys) started (tasks sys)) rest hs
    (created sys) (objects sys) (S (clock sys)).

(** Modelled from the spec: [release(task_id)], invoked on termination. *)
Definition release (id : ID) (sys : System) : System :=
  dispatch
    (mkSystem (tasks sys) (queue sys)
       (filter (fun h => held_by h <> id) (holders sys))
       (created sys) (objects sys) (clock sys)).

(** ** Task lifecycle manager (section 4.2) and worker outcomes *)

Definition unqueue (id : ID) (q : list ID) : list ID :=
  filter (fun x => x <> id) q.

(** Modelled from the spec: the effect of the work of a task that
    executes on the domain objects; an object is mutated only by a task
    that reserved its key exclusively, which it holds while it executes
    (section 5). *)
Definition effect (t : Task) (sys : System) : gmap string nat :=
  match work t with
  | Update k v =>
      if bool_decide ((k, exclusive) ∈ requires t)
      then <[k := v]> (objects sys)
      else objects sys
  | _ => objects sys
  end.

Definition reading (t : Task) (sys : System) : option nat :=
  match work t with
  | Sync k => objects sys !! k
  | _ => observed t
  end.

(** Modelled from the spec: the worker reports the task completed; its
    work takes effect, the completion timestamp is set, its resources are
    released.  A task that is canceling still executes: until its
    worker has met the flag, the worker's report counts (section 5). *)
Definition finish (id : ID) (sys : System) : outcome :=
  match tasks sys !! id with
  | None => Rejected NotFound
  | Some t =>
      if active (state t) then
        Done (release id
                (mkSystem
                   (<[id := mkTask completed (requires t) (work t) (submitted_at t)
                              (started_at t) (Some (clock sys)) (error_detail t)
                              (reading t sys)]> (tasks sys))
                   (queue sys) (holders sys) (created sys) (effect t sys)
                   (S (clock sys))))
      else Rejected Conflict
  end.

(** Modelled from the spec: the worker reports the task failed, with
    error detail and no completion timestamp. *)
Definition fail (id : ID) (e : error) (sys : System) : outcome :=
  match tasks sys !! id with
  | None => Rejected NotFound
  | Some t =>
      if active (state t) then
        Done (release id
                (mkSystem
                   (<[id := mkTask failed (requires t) (work t) (submitted_at t)
                              (started_at t) (finished_at t) (Some e)
                              (observed t)]> (tasks sys))
                   (queue sys) (holders sys) (created sys) (objects sys)
                   (S (clock sys))))
      else Rejected Conflict
  end.

(** Modelled from the spec: the first step of [request_cancel(task_id)]
    (section 4.2).  An unknown task is [NotFound]; a waiting task is
    canceled at once and leaves the queue; for a running task the
    cooperative flag is set and the task is canceling; a task that is
    canceling or in a terminal state is left as it is. *)
Definition set_cancel_flag (id : ID) (sys : System) : outcome :=
  match tasks sys !! id with
  | None => Rejected NotFound
  | Some t =>
      match state t with
      | waiting =>
          Done (mkSystem (<[id := set_state canceled t]> (tasks sys))
                  (unqueue id (queue sys)) (holders sys) (created sys)
                  (objects sys) (S (clock sys)))
      | running =>
          Done (mkSystem (<[id := set_state canceling t]> (tasks sys))
                  (queue sys) (holders sys) (created sys) (objects sys)
                  (S (clock sys)))
      | _ => Done sys
      end
  end.

(** Modelled from the spec: the worker reaches a checkpoint and polls the
    cancellation flag; when it is set, the worker moves the task to
    canceled. *)
Definition observe_cancel (id : ID) (sys : System) : outcome :=
  match tasks sys !! id with
  | None => Rejected NotFound
  | Some t =>
      match state t with
      | canceling =>
          Done (release id
                  (mkSystem (<[id := set_state canceled t]> (tasks sys))
                     (queue sys) (holders sys) (created sys) (objects sys)
                     (S (clock sys))))
      | _ => Done sys
      end
  end.

(** Modelled from the spec: [request_cancel(task_id)] as its caller sees
    it (section 4.2): the flag is set, the worker meets it at its
    checkpoint and moves the task to canceled, and the request is
    answered with the task as it is then.  That the answer comes after
    the worker's transition is read off the one place where the sources
    show the operation: the cancellation test (test_tasking.py, lines
    80-85 and 122-124) cancels a running task and finds state canceled
    and no [finished_at] in the answer to the request itself. *)
Definition request_cancel (id : ID) (sys : System) : outcome :=
  match set_cancel_flag id sys with
  | Done sys' => observe_cancel id sys'
  | Rejected e => Rejected e
  end.


(** Modelled from the spec: the wait for resources exceeds its bound and
    the task fails with [ResourceTimeout]; when that happens is left
    open. *)
Definition timeout (id : ID) (sys : System) : outcome :=
  match tasks sys !! id with
  | None => Rejected NotFound
  | Some t =>
      match state t with
      | waiting =>
          Done (mkSystem
                  (<[id := mkTask failed (requires t) (work t) (submitted_at t)
                             (started_at t) (finished_at t) (Some ResourceTimeout)
                             (observed t)]> (tasks sys))
                  (unqueue id (queue sys)) (holders sys) (created sys)
                  (objects sys) (S (clock sys)))
      | _ => Rejected Conflict
      end
  end.

(** Modelled from the spec: [delete(task_id)]. *)
Definition delete (id : ID) (sys : System) : outcome :=
  match tasks sys !! id with
  | None => Rejected NotFound
  | Some t =>
      if active (state t) then Rejected Conflict
      else
        Done (mkSystem (base.delete id (tasks sys)) (unqueue id (queue sys))
                (holders sys)
                (filter (fun c : ID * ID => c.1 <> id) (created sys))
                (objects sys) (clock sys))
  end.

(** Modelled from the spec: a running task registers an object it
    created. *)
Definition record_created (id obj : ID) (sys : System) : outcome :=
  match tasks sys !! id with
  | None => Rejected NotFound
  | Some t =>
      if active (state t) then
        Done (mkSystem (tasks sys) (queue sys) (holders sys)
                (created sys ++ [(id, obj)]) (objects sys) (clock sys))
      else Rejected Conflict
  end.

(** ** Runs of the system *)

Inductive request :=
  | Reserve (id : ID) (reqs : list (string * mode)) (w : action)
  | Dispatch
  | Finish (id : ID)
  | Fail (id : ID) (e : error)
  | RequestCancel (id : ID)
  | ObserveCancel (id : ID)
  | Timeout (id : ID)
  | Delete (id : ID)
  | RecordCreated (id obj : ID).

Global Instance error_eq_dec : EqDecision error.
Proof. solve_decision. Defined.
Global Instance request_eq_dec : EqDecision request.
Proof. solve_decision. Defined.

Definition handle (r : request) (sys : System) : outcome :=
  match r with
  | Reserve id reqs w => reserve id reqs w sys
  | Dispatch => Done (dispatch sys)
  | Finish id => finish id sys
  | Fail id e => fail id e sys
  | RequestCancel id => request_cancel id sys
  | ObserveCancel id => observe_cancel id sys
  | Timeout id => timeout id sys
  | Delete id => delete id sys
  | RecordCreated id obj => record_created id obj sys
  end.

(** Modelled from the spec: the requests the collaborators of section 6
    send, one at a time; a rejected request leaves the system as it is. *)
Definition step (r : request) (sys : System) : System :=
  match handle r sys with
  | Done sys' => sys'
  | Rejected _ => sys
  end.

Fixpoint run (rs : list request) (sys : System) : System :=
  match rs with
  | [] => sys
  | r :: rs' => run rs' (step r sys)
  end.


(** ** Notions used in the statements about runs *)







(** The run of the cancellation test (lines 80-85 and 105-120) up to the
    point where the long sync runs, and the system it reaches. *)
Definition long_sync : Task :=
  mkTask running [("repository", exclusive); ("remote", exclusive)]
    (Sync "remote") 0 (Some 1) None None None.
Definition long_task_started : list request :=
  [Reserve 1 [("repository", exclusive); ("remote", exclusive)] (Sync "remote");
   Dispatch].
Definition long_task_running : System :=
  run long_task_started (boot {["remote" := 1]}).

(** The same task after it registered an object it created and ran to
    completion. *)
Definition long_sync_done : Task :=
  mkTask completed [("repository", exclusive); ("remote", exclusive)]
    (Sync "remote") 0 (Some 1) (Some 2) None (Some 1).
Definition long_task_done : System :=
  run [RecordCreated 1 10; Finish 1] long_task_running.

(** The cancellation test itself: the request to cancel the long sync
    while it runs, and the record of the task in the answer. *)
Definition long_sync_canceled : Task :=
  mkTask canceled [("repository", exclusive); ("remote", exclusive)]
    (Sync "remote") 0 (Some 1) None None None.
Definition long_task_canceled : System :=
  run [RequestCancel 1] long_task_running.

End Tasking.


(** * OpenAPI schema generation

    A shallow embedding of the naming functions of
    [pulpcore/openapi/__init__.py]: the tags and serializer names of
    [PulpAutoSchema], its choice of request parsers, and the path
    parameter names and the rewriting of endpoint paths of
    [PulpSchemaGenerator].  A Python string is a list of characters; the
    methods of [str] and the regular expression the module uses are
    written out for ASCII text.  What the functions take from the views
    and from the base classes of [drf_spectacular] comes in as arguments
    and record fields. *)

(** ** Python's [str], as far as the module uses it *)

Coercion String.list_ascii_of_string : string >-> list.

Module Str.

Abbreviation str := (list ascii) (only parsing).

(** The ASCII letters: [A-Z] and [a-z]. *)
Definition is_upper (c : ascii) : bool :=
  Nat.leb 65 (nat_of_ascii c) && Nat.leb (nat_of_ascii c) 90.
Definition is_lower (c : ascii) : bool :=
  Nat.leb 97 (nat_of_ascii c) && Nat.leb (nat_of_ascii c) 122.

Definition lower_char (c : ascii) : ascii :=
  if is_upper c then ascii_of_nat (nat_of_ascii c + 32) else c.
Definition upper_char (c : ascii) : ascii :=
  if is_lower c then ascii_of_nat (nat_of_ascii c - 32) else c.

(** [s.isascii()]: the text the definitions below stand for. *)
Definition isascii (s : str) : bool :=
  forallb (fun c => Nat.ltb (nat_of_ascii c) 128) s.

(** [s.lower()], for ASCII text. *)
Definition lower (s : str) : str := lower_char <$> s.

(** [s.title()], for ASCII text: a letter that follows a letter is put
    in lower case, any other letter in upper case. *)
Fixpoint title_go (after_letter : bool) (s : str) : str :=
  match s with
  | [] => []
  | c :: s' =>
      (if after_letter then lower_char c else upper_char c)
        :: title_go (is_upper c || is_lower c) s'
  end.
Definition title (s : str) : str := title_go false s.

(** [sep.join(l)]. *)
Fixpoint join (sep : str) (l : list str) : str :=
  match l with
  | [] => []
  | x :: l' =>
      match l' with
      | [] => x
      | _ :: _ => x ++ sep ++ join sep l'
      end
  end.

(** [s.split(sep)] for a separator of one character. *)
Fixpoint split (sep : ascii) (s : str) : list str :=
  match s with
  | [] => [[]]
  | c :: s' =>
      if decide (c = sep) then [] :: split sep s'
      else
        match split sep s' with
        | [] => [[c]]
        | w :: ws => (c :: w) :: ws
        end
  end.

(** What stands before the last [sep] in [s], if [sep] occurs. *)
Fixpoint before_last (sep : ascii) (s : str) : option str :=
  match s with
  | [] => None
  | c :: s' =>
      match before_last sep s' with
      | Some p => Some (c :: p)
      | None => if decide (c = sep) then Some [] else None
      end
  end.

(** [s.rsplit(sep=sep, maxsplit=1)[0]] for a separator of one character:
    the string itself when [sep] does not occur. *)
Definition rsplit_head (sep : ascii) (s : str) : str :=
  default s (before_last sep s).

(** [s.startswith(p)]. *)
Fixpoint startswith (p s : str) : bool :=
  match p, s with
  | [], _ => true
  | _ :: _, [] => false
  | a :: p', b :: s' => bool_decide (a = b) && startswith p' s'
  end.

(** [sub in s]. *)
Fixpoint contains (sub s : str) : bool :=
  startswith sub s ||
  match s with
  | [] => false
  | _ :: s' => contains sub s'
  end.

(** [s.replace(old, new)]: the occurrences of [old] are replaced from
    left to right, the search going on behind each one; [skip] counts
    the characters of an occurrence still to be passed over.  For an
    empty [old], [new] is put before every character and at the end. *)
Fixpoint replace_go (old new : str) (skip : nat) (s : str) : str :=
  match s with
  | [] => []
  | c :: s' =>
      match skip with
      | S n => replace_go old new n s'
      | 0 =>
          if startswith old s then new ++ replace_go old new (length old - 1) s'
          else c :: replace_go old new 0 s'
      end
  end.

Definition replace (old new s : str) : str :=
  match old with
  | [] => new ++ flat_map (fun c => c :: new) s
  | _ :: _ => replace_go old new 0 s
  end.

(** [s[:-n]]. *)
Definition drop_last (n : nat) (s : str) : str := take (length s - n) s.

(** The characters up to the next capital letter: what [[^A-Z]*]
    matches at the start of [s]. *)
Fixpoint non_capitals (s : str) : str :=
  match s with
  | [] => []
  | c :: s' => if is_upper c then [] else c :: non_capitals s'
  end.

(** [re.findall("[A-Z][^A-Z]*", s)]: every capital letter starts a match
    that runs up to the next capital letter; what stands before the
    first capital letter is in no match. *)
Fixpoint findall_capital_words (s : str) : list str :=
  match s with
  | [] => []
  | c :: s' =>
      if is_upper c then (c :: non_capitals s') :: findall_capital_words s'
      else findall_capital_words s'
  end.

End Str.

(** ** Views and models, as the schema classes see them *)

(** A model class: its name, and whether it is [RepositoryVersion] or a
    subclass of it. *)
Record Model := mkModel {
  __name__ : list ascii;
  is_repository_version : bool
}.

(** The class a nested viewset names as its parent. *)
Record ParentViewSet := mkParentViewSet {
  endpoint_name : list ascii;
  parent_endpoint_pieces : list (list ascii)
}.

(** A view.  An attribute that the view may lack is an option: [None]
    for a missing attribute; [queryset] and [model] may be there and hold
    [None]; a missing or null [parent_viewset] and an empty or null
    [pulp_tag_name] are not told apart, as the code tests them for truth
    only. *)
Record View := mkView {
  pulp_tag_name : option (list ascii);
  parent_viewset : option ParentViewSet;
  endpoint_pieces : option (list (list ascii));
  queryset : option (option Model);
  model : option (option Model)
}.

(** A field of a serializer: a [serializers.FileField] (or an instance of
    a subclass), or any other field. *)
Inductive serializer_field := FileField | OtherField.

Global Instance serializer_field_eq_dec : EqDecision serializer_field.
Proof. solve_decision. Defined.

(** Raised by the access to an attribute of [None]. *)
Definition AttributeError : exception := Exception "AttributeError" true.

(** ** [class PulpAutoSchema] *)

Module PulpAutoSchema.

(** [del operation_keys[-2]]. *)
Definition del_second_to_last (l : list (list ascii)) : list (list ascii) :=
  take (length l - 2) l ++ drop (length l - 1) l.

(** Lines 41-44 of [get_tags]: the tag from the operation keys. *)
Definition tag_of_keys (operation_keys : list (list ascii)) : list ascii :=
  let operation_keys :=
    if decide (2 < length operation_keys) then
      match del_second_to_last operation_keys with
      | [] => []
      | key :: keys => (key ++ ":") :: keys
      end
    else operation_keys in
  Str.join " " operation_keys.

(** Lines 37-44 of [get_tags]: the tag from the tokenized path. *)
Definition tag_of_path (tokenized_path : list (list ascii)) : list ascii :=
  let subpath := Str.join "/" tokenized_path in
  let operation_keys := Str.split "/" (Str.replace "pulp/api/v3/" "" subpath) in
  let operation_keys := Str.title <$> operation_keys in
  tag_of_keys operation_keys.

(** [get_tags] (lines 24-46); [_tokenize_path] is what the method of the
    base class returns. *)
Definition get_tags (view : View) (_tokenize_path : list (list ascii)) :
    list (list ascii) :=
  match pulp_tag_name view with
  | Some (c :: name) => [c :: name]
  | _ =>
      let tokenized_path :=
        from_option parent_endpoint_pieces [] (parent_viewset view) ++
        default [] (endpoint_pieces view) in
      let tokenized_path :=
        match tokenized_path with
        | [] => _tokenize_path
        | _ :: _ => tokenized_path
        end in
      [tag_of_path tokenized_path]
  end.

(** [_get_serializer_name] (lines 48-57); [name] is what the method of
    the base class returns. *)
Definition _get_serializer_name (name : list ascii) (direction : list ascii) :
    list ascii :=
  if decide (direction = ("request" : list ascii)) then Str.drop_last 7 name
  else if decide (direction = ("response" : list ascii)) then
    if Str.contains "Response" name then name else name ++ "Response"
  else name.

(** [map_parsers] (lines 59-68); [parsers] is what the method of the
    base class returns, [fields] the fields of the request serializer,
    none for a serializer without the attribute. *)
Fixpoint map_parsers (parsers : list (list ascii))
    (fields : list (list ascii * serializer_field)) (method : list ascii) :
    list (list ascii) :=
  match fields with
  | [] => parsers
  | (field_name, field) :: fields' =>
      if bool_decide (field = FileField) &&
         bool_decide (method ∈ [("PUT" : list ascii); ("PATCH" : list ascii);
                                 ("POST" : list ascii)])
      then ["multipart/form-data" : list ascii;
            "application/x-www-form-urlencoded" : list ascii]
      else map_parsers parsers fields' method
  end.

End PulpAutoSchema.

(** ** [class PulpSchemaGenerator] *)

Module PulpSchemaGenerator.

(** [get_parameter_slug_from_model] (lines 81-96). *)
Definition get_parameter_slug_from_model (model : Model)
    (prefix : option (list ascii)) : list ascii :=
  let slug :=
    Str.join "_" (Str.lower <$> Str.findall_capital_words (__name__ model))
      ++ "_href" in
  match prefix with
  | Some (c :: p) => (c :: p) ++ "_" ++ slug
  | _ => slug
  end.

(** [get_pk_path_param_name_from_model] (lines 98-110). *)
Definition get_pk_path_param_name_from_model (model : Model) : list ascii :=
  Str.join "_" (Str.lower <$> Str.findall_capital_words (__name__ model))
    ++ "_pk".

(** [convert_endpoint_path_params] (lines 112-136). *)
Definition convert_endpoint_path_params (path : list ascii) (view : View) :
    result (list ascii) :=
  let convert (resource_model : option Model) : result (list ascii) :=
    match resource_model with
    | Some resource_model =>
        let with_prefix (prefix_ : option (list ascii)) : result (list ascii) :=
          let param_name := get_parameter_slug_from_model resource_model prefix_ in
          let resource_path := Str.rsplit_head "}" path ++ "}/" in
          Ok (Str.replace resource_path ("{" ++ param_name ++ "}") path) in
        if is_repository_version resource_model then
          match parent_viewset view with
          | Some parent => with_prefix (Some (endpoint_name parent))
          | None => Raise AttributeError
          end
        else with_prefix None
    | None => Ok path
    end in
  match queryset view with
  | Some (Some q) => convert (Some q)
  | _ =>
      match model view with
      | Some resource_model => convert resource_model
      | None => Ok path
      end
  end.

End PulpSchemaGenerator.

(** Two sample views: the versions of a file repository, nested under
    the viewset of the repository, and the file remotes. *)
Definition FileRepositoryVersion : Model :=
  mkModel "FileRepositoryVersion" true.
Definition FileRemote : Model := mkModel "FileRemote" false.

Definition file_repository_viewset : ParentViewSet :=
  mkParentViewSet "file_file"
    [("repositories" : list ascii); ("file" : list ascii); ("file" : list ascii)].

Definition versions_view : View :=
  mkView None (Some file_repository_viewset) (Some [("versions" : list ascii)])
    (Some (Some FileRepositoryVersion)) None.

Definition remotes_view : View :=
  mkView None None
    (Some [("remotes" : list ascii); ("file" : list ascii); ("file" : list ascii)])
    (Some (Some FileRemote)) None.

(** * Properties *)

(** ** How the ORM operations evaluate *)

Ltac run :=
  unfold mbind, M_bind, mret, M_ret, bind, ret, raise, modify, get_state,
    getobj, setobj, next_pk, attempt; simpl.

Lemma bind_Ok {A B} (c : M A) (k : A -> M B) st a st' :
  c st = (Ok a, st') -> (c ≫= k) st = k a st'.
Proof. intros H. unfold mbind, M_bind, bind. by rewrite H. Qed.

Lemma bind_Raise {A B} (c : M A) (k : A -> M B) st e st' :
  c st = (Raise e, st') -> (c ≫= k) st = (Raise e, st').
Proof. intros H. unfold mbind, M_bind, bind. by rewrite H. Qed.

Lemma getobj_Ok self o st :
  heap st !! self = Some o -> getobj self st = (Ok o, st).
Proof. intros H. unfold getobj. by rewrite H. Qed.

Lemma lookup_snoc_new (h : list Publication) o : (h ++ [o]) !! length h = Some o.
Proof. by apply list_lookup_middle. Qed.

Lemma insert_snoc_new (h : list Publication) o o' :
  <[length h := o']> (h ++ [o]) = h ++ [o'].
Proof.
  replace (length h) with (length h + 0) at 1 by lia.
  by rewrite insert_app_r.
Qed.

Lemma heap_insert_lookup (h : list Publication) self o o' :
  h !! self = Some o -> <[self := o']> h !! self = Some o'.
Proof.
  intros Ho. apply list_lookup_insert_eq. by eapply lookup_lt_Some.
Qed.

Lemma Model_save_update self o k st :
  heap st !! self = Some o -> pk o = Some k ->
  Model_save self st =
    (Ok tt,
     set_db (set_publications (<[k := fields o]> (publications (db st))) (db st)) st).
Proof.
  intros Ho Hk. unfold Model_save. run. rewrite Ho. simpl. by rewrite Hk.
Qed.

Lemma Model_save_insert self o st :
  heap st !! self = Some o -> pk o = None ->
  publications (db st) !! pk_supply st = None ->
  Model_save self st =
    (Ok tt,
     mkState
       (set_publications (<[pk_supply st := fields o]> (publications (db st))) (db st))
       (S (pk_supply st))
       (<[self := mkPublication (Some (pk_supply st)) (fields o)]> (heap st))).
Proof.
  intros Ho Hk Hfresh. unfold Model_save. run. rewrite Ho. simpl. rewrite Hk. simpl.
  destruct (decide _) as [[x Hx]|_]; [congruence|done].
Qed.

(** A failed insert leaves the tables alone. *)
Lemma Model_save_raise self e st st' :
  Model_save self st = (Raise e, st') -> db st' = db st.
Proof.
  unfold Model_save. run. destruct (heap st !! self) as [o|]; simpl.
  - destruct (pk o); simpl; [by intros [=]|].
    destruct (decide _); unfold modify; simpl; [by intros [= _ <-]|by intros [=]].
  - by intros [= _ <-].
Qed.

Lemma Model_delete_saved self o k st :
  heap st !! self = Some o -> pk o = Some k ->
  Model_delete self st =
    (Ok tt,
     mkState (collect_and_delete k (db st)) (pk_supply st)
       (<[self := mkPublication None (fields o)]> (heap st))).
Proof.
  intros Ho Hk. unfold Model_delete. run. rewrite Ho. simpl. by rewrite Hk.
Qed.

Lemma delete_saved self o k st :
  heap st !! self = Some o -> pk o = Some k ->
  Publication.delete self st =
    (Ok tt,
     mkState (deleted_db k (db st)) (pk_supply st)
       (<[self := mkPublication None (fields o)]> (heap st))).
Proof.
  intros Ho Hk.
  unfold Publication.delete, transaction_atomic,
    CreatedResource.objects_filter_delete.
  run. rewrite Ho. simpl. rewrite Hk. simpl.
  by rewrite (Model_delete_saved self o k).
Qed.

Lemma delete_unsaved self o st :
  heap st !! self = Some o -> pk o = None ->
  Publication.delete self st = (Raise AssertionError, st).
Proof.
  intros Ho Hk.
  unfold Publication.delete, transaction_atomic,
    CreatedResource.objects_filter_delete, Model_delete.
  run. rewrite Ho. simpl. rewrite Hk. simpl. rewrite Ho. simpl. rewrite Hk.
  by destruct st.
Qed.

Lemma delete_no_object self st :
  heap st !! self = None ->
  Publication.delete self st = (Raise ReferenceError, st).
Proof.
  intros Ho. unfold Publication.delete, transaction_atomic. run. rewrite Ho.
  by destruct st.
Qed.

(** Nothing of publication [k] is left in [deleted_db k d]. *)
Lemma deleted_db_publication k d : publications (deleted_db k d) !! k = None.
Proof. simpl. apply lookup_delete_eq. Qed.

Lemma deleted_db_artifacts k d i (a : PublishedArtifact) :
  published_artifacts (deleted_db k d) !! i = Some a -> publication a <> k.
Proof. simpl. intros [_ H]%map_lookup_filter_Some. exact H. Qed.

Lemma deleted_db_metadata k d i (m : PublishedMetadata) :
  published_metadata (deleted_db k d) !! i = Some m -> publication m <> k.
Proof. simpl. intros [_ H]%map_lookup_filter_Some. exact H. Qed.

Lemma deleted_db_created_resources k d i r :
  created_resources (deleted_db k d) !! i = Some r -> object_id r <> k.
Proof. simpl. intros [_ H]%map_lookup_filter_Some. exact H. Qed.

Lemma deleted_db_distributions k d i x :
  distributions (deleted_db k d) !! i = Some x -> dist_publication x <> Some k.
Proof.
  simpl. rewrite lookup_fmap. destruct (distributions d !! i) as [y|]; [|done].
  simpl. intros [= <-]. unfold set_null. simpl. by case_decide.
Qed.

(** Rows of other publications stay. *)
Lemma deleted_db_other_publication k d j :
  j <> k -> publications (deleted_db k d) !! j = publications d !! j.
Proof. intros. simpl. by apply lookup_delete_ne. Qed.

Lemma deleted_db_other_artifact k d i (a : PublishedArtifact) :
  published_artifacts d !! i = Some a -> publication a <> k ->
  published_artifacts (deleted_db k d) !! i = Some a.
Proof. intros. simpl. by apply map_lookup_filter_Some. Qed.

(** ** The two ways out of [__exit__] *)

(** The branch taken when [not exc_val] holds: the instance is marked
    complete and saved.  The row is written under the instance's primary
    key, or under the next key of the sequence for an instance that has
    none. *)
Lemma exit_commit self o ty ev tb st :
  heap st !! self = Some o ->
  exc_truthy ev = false ->
  (pk o = None -> publications (db st) !! pk_supply st = None) ->
  exists st',
    Publication.__exit__ self ty ev tb st = (Ok PyNone, st') /\
    db st' =
      set_publications
        (<[default (pk_supply st) (pk o) := set_complete true (fields o)]>
           (publications (db st))) (db st) /\
    heap st' =
      <[self := mkPublication (Some (default (pk_supply st) (pk o)))
                  (set_complete true (fields o))]> (heap st).
Proof.
  intros Ho Hev Hfresh. unfold Publication.__exit__. rewrite Hev. simpl.
  run. rewrite Ho. simpl.
  set (o' := mkPublication (pk o) (set_complete true (fields o))).
  set (st1 := set_heap (<[self := o']> (heap st)) st).
  assert (Ho' : heap st1 !! self = Some o') by by eapply heap_insert_lookup.
  destruct (pk o) as [k|] eqn:Hk.
  - rewrite (Model_save_update self o' k) by done. simpl.
    eexists. split; [done|]. by split.
  - rewrite (Model_save_insert self o') by (simpl; auto). simpl.
    eexists. split; [done|]. split; [done|]. simpl.
    by rewrite list_insert_insert_eq.
Qed.

(** The branch taken when [exc_val] is true: the publication is deleted. *)
Lemma exit_abort self o k ty ev tb st :
  heap st !! self = Some o -> pk o = Some k ->
  exc_truthy ev = true ->
  Publication.__exit__ self ty ev tb st =
    (Ok PyNone,
     mkState (deleted_db k (db st)) (pk_supply st)
       (<[self := mkPublication None (fields o)]> (heap st))).
Proof.
  intros Ho Hk Hev. unfold Publication.__exit__. rewrite Hev. simpl.
  run. by rewrite (delete_saved self o k).
Qed.

(** [__exit__] has no [return] statement: whenever it returns, it returns
    [None]. *)
Lemma exit_returns_None self ty ev tb st v st' :
  Publication.__exit__ self ty ev tb st = (Ok v, st') -> v = PyNone.
Proof.
  unfold Publication.__exit__. destruct (negb (exc_truthy ev)); run.
  - destruct (heap st !! self); simpl; [|by intros [=]].
    destruct (Model_save _ _) as [[[]|?] ?]; by intros [=].
  - destruct (Publication.delete _ _) as [[[]|?] ?]; by intros [=].
Qed.

(** ** The [with] statement *)

Lemma with_statement_normal mgr body st st1 :
  body mgr st = (Ok tt, st1) ->
  with_statement mgr body st =
    (Publication.__exit__ mgr None None None ;; ret tt) st1.
Proof.
  intros Hb. unfold with_statement, Publication.__enter__. run. by rewrite Hb.
Qed.

Lemma with_statement_raise mgr body st st1 e :
  body mgr st = (Raise e, st1) ->
  with_statement mgr body st =
    (suppress ← Publication.__exit__ mgr (Some (exc_class e)) (Some e) (Some tt);
     if truthy suppress then ret tt else raise e) st1.
Proof.
  intros Hb. unfold with_statement, Publication.__enter__. run. by rewrite Hb.
Qed.

Lemma publication_scope_created rv publisher pt body st mgr st0 :
  Publication.create rv publisher pt st = (Ok mgr, st0) ->
  publication_scope rv publisher pt body st = with_statement mgr body st0.
Proof. intros Hc. unfold publication_scope. run. by rewrite Hc. Qed.

(** ** [Publication.create] *)

Lemma CreatedResource_save_ok r st :
  created_resources (db st) !! pk_supply st = None ->
  CreatedResource.save r st =
    (Ok (pk_supply st),
     mkState
       (set_created_resources
          (<[pk_supply st := r]> (created_resources (db st))) (db st))
       (S (pk_supply st)) (heap st)).
Proof.
  intros Hr. unfold CreatedResource.save. run.
  destruct (decide _) as [[x Hx]|_]; [congruence|done].
Qed.

Lemma create_ok rv publisher pt st :
  publications (db st) !! pk_supply st = None ->
  created_resources (db st) !! S (pk_supply st) = None ->
  Publication.create rv publisher pt st =
    (Ok (length (heap st)),
     mkState
       (set_created_resources
          (<[S (pk_supply st) := mkCreatedResource "publication" (pk_supply st)]>
             (created_resources (db st)))
          (set_publications
             (<[pk_supply st := created_fields rv publisher pt]>
                (publications (db st))) (db st)))
       (S (S (pk_supply st)))
       (heap st ++
          [mkPublication (Some (pk_supply st)) (created_fields rv publisher pt)])).
Proof.
  intros Hp Hr.
  unfold Publication.create, transaction_atomic.
  erewrite bind_Ok by (unfold new_instance; reflexivity).
  set (h := heap st).
  assert (Hset :
    (match publisher with
     | Some _ =>
         o ← getobj (length h);
         setobj (length h)
           (mkPublication (pk o) (set_publisher publisher (fields o)))
     | None => ret tt
     end)
      (set_heap (h ++ [mkPublication None (mkPublicationFields false pt None rv)]) st)
    = (Ok tt,
       set_heap (h ++ [mkPublication None (created_fields rv publisher pt)]) st)).
  { destruct publisher as [p|]; [|done].
    erewrite bind_Ok by (apply getobj_Ok; apply lookup_snoc_new).
    unfold setobj, modify. simpl. by rewrite insert_snoc_new. }
  erewrite bind_Ok by exact Hset.
  erewrite bind_Ok; cycle 1.
  { apply Model_save_insert
      with (o := mkPublication None (created_fields rv publisher pt));
      [apply lookup_snoc_new|done|done]. }
  simpl. rewrite insert_snoc_new.
  erewrite bind_Ok; cycle 1.
  { unfold CreatedResource.new.
    erewrite bind_Ok by (apply getobj_Ok; apply lookup_snoc_new).
    reflexivity. }
  erewrite bind_Ok; cycle 1.
  { apply CreatedResource_save_ok. simpl. exact Hr. }
  reflexivity.
Qed.

(** [create] runs in [transaction.atomic()]: when it raises, the tables
    are what they were. *)
Lemma create_all_or_nothing rv publisher pt st e st' :
  Publication.create rv publisher pt st = (Raise e, st') -> db st' = db st.
Proof.
  unfold Publication.create, transaction_atomic.
  match goal with
  | |- context [let (_, _) := ?c in _] => destruct c as [[a|e'] st1]
  end; [by intros [=]|]. by intros [= _ <-].
Qed.

(** ** Adding published files *)

Lemma artifact_save_duplicate (a r : PublishedArtifact) i st :
  published_artifacts (db st) !! i = Some r ->
  PublishedArtifact.conflicts a r ->
  PublishedArtifact.save a st = (Raise IntegrityError, st).
Proof.
  intros Hr Hc. unfold PublishedArtifact.save. run.
  destruct (decide _) as [_|Hn]; [done|].
  exfalso. apply Hn. by exists i, r.
Qed.

Lemma metadata_save_duplicate (m r : PublishedMetadata) i st :
  published_metadata (db st) !! i = Some r ->
  PublishedMetadata.conflicts m r ->
  PublishedMetadata.save m st = (Raise IntegrityError, st).
Proof.
  intros Hr Hc. unfold PublishedMetadata.save. run.
  destruct (decide _) as [_|Hn]; [done|].
  exfalso. apply Hn. by exists i, r.
Qed.

(** An entry that conflicts with none, for a publication that exists, is
    inserted. *)
Lemma artifact_save_ok (a : PublishedArtifact) st :
  (forall i r, published_artifacts (db st) !! i = Some r ->
               ~ PublishedArtifact.conflicts a r) ->
  is_Some (publications (db st) !! publication a) ->
  published_artifacts (db st) !! pk_supply st = None ->
  PublishedArtifact.save a st =
    (Ok (pk_supply st),
     mkState
       (set_published_artifacts
          (<[pk_supply st := a]> (published_artifacts (db st))) (db st))
       (S (pk_supply st)) (heap st)).
Proof.
  intros Hnc Hp Hfresh. unfold PublishedArtifact.save. run.
  destruct (decide (map_Exists _ _)) as [(i & r & Hr & Hc)|_].
  { by destruct (Hnc i r Hr). }
  destruct (decide (is_Some (publications _ !! _))) as [_|?]; [|done].
  simpl. destruct (decide _) as [[x Hx]|_]; [congruence|done].
Qed.

Lemma metadata_save_ok (m : PublishedMetadata) st :
  (forall i r, published_metadata (db st) !! i = Some r ->
               ~ PublishedMetadata.conflicts m r) ->
  is_Some (publications (db st) !! publication m) ->
  published_metadata (db st) !! pk_supply st = None ->
  PublishedMetadata.save m st =
    (Ok (pk_supply st),
     mkState
       (set_published_metadata
          (<[pk_supply st := m]> (published_metadata (db st))) (db st))
       (S (pk_supply st)) (heap st)).
Proof.
  intros Hnc Hp Hfresh. unfold PublishedMetadata.save. run.
  destruct (decide (map_Exists _ _)) as [(i & r & Hr & Hc)|_].
  { by destruct (Hnc i r Hr). }
  destruct (decide (is_Some (publications _ !! _))) as [_|?]; [|done].
  simpl. destruct (decide _) as [[x Hx]|_]; [congruence|done].
Qed.

(** A table keyed by primary key holds one row per key. *)
Lemma one_complete_row (t : gmap ID PublicationFields) k f :
  t !! k = Some f -> complete f = true ->
  size (filter (fun kv : ID * PublicationFields =>
                  kv.1 = k /\ complete kv.2 = true) t) = 1.
Proof.
  intros Hk Hc.
  replace (filter _ t) with ({[k := f]} : gmap ID PublicationFields).
  { apply map_size_singleton. }
  apply map_eq. intros j. destruct (decide (j = k)) as [->|Hne].
  - rewrite lookup_singleton_eq. symmetry. by apply map_lookup_filter_Some.
  - rewrite lookup_singleton_ne by done. symmetry.
    apply map_lookup_filter_None. right. intros x _ [? _]. done.
Qed.

(** ** The publication scope *)

(** C1.  A publication scope whose body ends without an exception ends
    without one itself, and its exit marks the publication complete and
    saves it: the instance's row holds the instance's fields with
    [complete=True], it is the one row of that publication with
    [complete=True], the rows of other publications are as the body left
    them, and so is every [PublishedArtifact], [PublishedMetadata] and
    [CreatedResource] row, those added during the scope included. *)
Theorem scope_exit_without_exception_commits
    rv publisher pt body st mgr st0 st1 o :
  Publication.create rv publisher pt st = (Ok mgr, st0) ->
  body mgr st0 = (Ok tt, st1) ->
  heap st1 !! mgr = Some o ->
  (pk o = None -> publications (db st1) !! pk_supply st1 = None) ->
  exists k st2,
    publication_scope rv publisher pt body st = (Ok tt, st2) /\
    heap st2 !! mgr = Some (mkPublication (Some k) (set_complete true (fields o))) /\
    publications (db st2) !! k = Some (set_complete true (fields o)) /\
    complete (set_complete true (fields o)) = true /\
    size (filter (fun kv : ID * PublicationFields =>
                    kv.1 = k /\ complete kv.2 = true)
            (publications (db st2))) = 1 /\
    (forall j, j <> k -> publications (db st2) !! j = publications (db st1) !! j) /\
    published_artifacts (db st2) = published_artifacts (db st1) /\
    published_metadata (db st2) = published_metadata (db st1) /\
    created_resources (db st2) = created_resources (db st1).
Proof.
  intros Hc Hb Ho Hfresh.
  destruct (exit_commit mgr o None None None st1 Ho eq_refl Hfresh)
    as (st2 & Hexit & Hdb & Hheap).
  exists (default (pk_supply st1) (pk o)), st2.
  assert (Hrow : publications (db st2) !! default (pk_supply st1) (pk o)
                 = Some (set_complete true (fields o))).
  { rewrite Hdb. simpl. apply lookup_insert_eq. }
  split.
  { rewrite (publication_scope_created _ _ _ _ _ _ _ Hc).
    rewrite (with_statement_normal _ _ _ _ Hb).
    by rewrite (bind_Ok _ _ _ _ _ Hexit). }
  split. { rewrite Hheap. by eapply heap_insert_lookup. }
  split; [exact Hrow|]. split; [done|].
  split. { by eapply one_complete_row. }
  split. { intros j Hj. rewrite Hdb. simpl. by apply lookup_insert_ne. }
  by rewrite Hdb.
Qed.

Lemma scope_exit_without_exception_commits_witness :
  exists k st2,
    publication_scope 5 (Some 3) false publish_two_files initial_state = (Ok tt, st2) /\
    heap st2 !! 0 =
      Some (mkPublication (Some k) (set_complete true (fields sample_publication))) /\
    publications (db st2) !! k = Some (set_complete true (fields sample_publication)) /\
    complete (set_complete true (fields sample_publication)) = true /\
    size (filter (fun kv : ID * PublicationFields =>
                    kv.1 = k /\ complete kv.2 = true)
            (publications (db st2))) = 1 /\
    (forall j, j <> k ->
       publications (db st2) !! j = publications (db sample_built) !! j) /\
    published_artifacts (db st2) = published_artifacts (db sample_built) /\
    published_metadata (db st2) = published_metadata (db sample_built) /\
    created_resources (db st2) = created_resources (db sample_built).
Proof.
  apply (scope_exit_without_exception_commits 5 (Some 3) false publish_two_files
           initial_state 0 sample_created sample_built sample_publication).
  - reflexivity.
  - reflexivity.
  - reflexivity.
  - intros H. discriminate H.
Defined.

(** When the body raises, the [with] statement never ends normally:
    [__exit__] hands back [None], so nothing is suppressed. *)
Lemma with_statement_never_suppresses mgr body st st1 e :
  body mgr st = (Raise e, st1) ->
  exists e' st2, with_statement mgr body st = (Raise e', st2).
Proof.
  intros Hb. rewrite (with_statement_raise _ _ _ _ _ Hb).
  destruct (Publication.__exit__ mgr (Some (exc_class e)) (Some e) (Some tt) st1)
    as [[v|e'] st2] eqn:Hexit.
  - rewrite (bind_Ok _ _ _ _ _ Hexit).
    rewrite (exit_returns_None _ _ _ _ _ _ _ Hexit). simpl. by exists e, st2.
  - rewrite (bind_Raise _ _ _ _ _ Hexit). by exists e', st2.
Qed.

(** With the instance still saved, [__exit__] succeeds on either branch
    and the exception of the body is the one that propagates; when that
    exception is true, nothing of the publication is left. *)
Lemma with_statement_reraises mgr body st st1 e o k :
  body mgr st = (Raise e, st1) ->
  heap st1 !! mgr = Some o -> pk o = Some k ->
  exists st2,
    with_statement mgr body st = (Raise e, st2) /\
    (exc_bool e = true -> db st2 = deleted_db k (db st1)).
Proof.
  intros Hb Ho Hk. rewrite (with_statement_raise _ _ _ _ _ Hb).
  destruct (exc_bool e) eqn:He.
  - rewrite (bind_Ok _ _ _ _ _
               (exit_abort mgr o k (Some (exc_class e)) (Some e) (Some tt) st1 Ho Hk He)).
    simpl. eexists. by split.
  - destruct (exit_commit mgr o (Some (exc_class e)) (Some e) (Some tt) st1 Ho He)
      as (st2 & Hexit & _); [by rewrite Hk|].
    rewrite (bind_Ok _ _ _ _ _ Hexit). simpl. exists st2. by split.
Qed.

Lemma deleted_db_no_trace k d : no_trace_of k (deleted_db k d).
Proof.
  split; [apply deleted_db_publication|].
  split; [apply deleted_db_artifacts|].
  split; [apply deleted_db_metadata|apply deleted_db_created_resources].
Qed.

(** With the instance no longer saved, the [delete] of [__exit__] raises
    and its exception takes the place of the one the body raised. *)
Lemma with_statement_replaces mgr body st st1 e o :
  body mgr st = (Raise e, st1) ->
  heap st1 !! mgr = Some o -> pk o = None -> exc_bool e = true ->
  with_statement mgr body st = (Raise AssertionError, st1).
Proof.
  intros Hb Ho Hk He. rewrite (with_statement_raise _ _ _ _ _ Hb).
  apply bind_Raise. unfold Publication.__exit__. simpl. rewrite He. simpl.
  unfold mbind, M_bind, bind. by rewrite (delete_unsaved mgr o st1 Ho Hk).
Qed.

(** C9, as stated, fails on a body that has deleted the publication
    itself before it raises: the body publishes two files, calls
    [publication.delete()] and raises [RuntimeError]; [__exit__] calls
    [self.delete()] on the instance, which has no primary key any more,
    that call raises [AssertionError], and the scope ends with
    [AssertionError], not with the exception the body raised. *)
Lemma scope_exit_replaces_exception_after_delete :
  Publication.create 5 (Some 3) false initial_state = (Ok 0, sample_created) /\
  (delete_then_fail 0 sample_created).1 = Raise RuntimeError /\
  (publication_scope 5 (Some 3) false delete_then_fail initial_state).1
    = Raise AssertionError /\
  AssertionError <> RuntimeError.
Proof.
  split; [reflexivity|]. split; [reflexivity|]. split; [reflexivity|]. done.
Qed.

(** C9, amended.  When the body of a publication scope raises, the scope
    exit does not suppress the exception: [__exit__] never returns a true
    value, and the scope never ends normally.  With the instance still
    saved when the body raises, the exception that propagates is the one
    the body raised, and when that exception is true, the publication,
    its published files and its provenance entry have been deleted by
    then.  With the instance no longer saved and a true exception, the
    [AssertionError] of [self.delete()] propagates in its place, and the
    tables are as the body left them. *)
Theorem scope_exit_never_suppresses rv publisher pt body st mgr st0 st1 e :
  Publication.create rv publisher pt st = (Ok mgr, st0) ->
  body mgr st0 = (Raise e, st1) ->
  (forall self ty ev tb s v s',
     Publication.__exit__ self ty ev tb s = (Ok v, s') -> truthy v = false) /\
  (exists e' st2, publication_scope rv publisher pt body st = (Raise e', st2)) /\
  (forall o k,
     heap st1 !! mgr = Some o -> pk o = Some k ->
     exists st2,
       publication_scope rv publisher pt body st = (Raise e, st2) /\
       (exc_bool e = true -> no_trace_of k (db st2))) /\
  (forall o,
     heap st1 !! mgr = Some o -> pk o = None -> exc_bool e = true ->
     publication_scope rv publisher pt body st = (Raise AssertionError, st1)).
Proof.
  intros Hc Hb. rewrite (publication_scope_created _ _ _ _ _ _ _ Hc).
  split.
  { intros self ty ev tb s v s' H. by rewrite (exit_returns_None _ _ _ _ _ _ _ H). }
  split; [by eapply with_statement_never_suppresses|].
  split.
  - intros o k Ho Hk.
    destruct (with_statement_reraises _ _ _ _ _ _ _ Hb Ho Hk) as (st2 & Hw & Hdel).
    exists st2. split; [done|]. intros He. rewrite (Hdel He).
    apply deleted_db_no_trace.
  - intros o Ho Hk He. by eapply with_statement_replaces.
Qed.

Lemma scope_exit_never_suppresses_witness :
  ((forall self ty ev tb s v s',
      Publication.__exit__ self ty ev tb s = (Ok v, s') -> truthy v = false) /\
   (exists e' st2,
      publication_scope 5 (Some 3) false publish_then_fail initial_state
        = (Raise e', st2)) /\
   (forall o k,
      heap sample_built !! 0 = Some o -> pk o = Some k ->
      exists st2,
        publication_scope 5 (Some 3) false publish_then_fail initial_state
          = (Raise RuntimeError, st2) /\
        (exc_bool RuntimeError = true -> no_trace_of k (db st2))) /\
   (forall o,
      heap sample_built !! 0 = Some o -> pk o = None ->
      exc_bool RuntimeError = true ->
      publication_scope 5 (Some 3) false publish_then_fail initial_state
        = (Raise AssertionError, sample_built))) /\
  ((forall self ty ev tb s v s',
      Publication.__exit__ self ty ev tb s = (Ok v, s') -> truthy v = false) /\
   (exists e' st2,
      publication_scope 5 (Some 3) false delete_then_fail initial_state
        = (Raise e', st2)) /\
   (forall o k,
      heap (delete_then_fail 0 sample_created).2 !! 0 = Some o -> pk o = Some k ->
      exists st2,
        publication_scope 5 (Some 3) false delete_then_fail initial_state
          = (Raise RuntimeError, st2) /\
        (exc_bool RuntimeError = true -> no_trace_of k (db st2))) /\
   (forall o,
      heap (delete_then_fail 0 sample_created).2 !! 0 = Some o -> pk o = None ->
      exc_bool RuntimeError = true ->
      publication_scope 5 (Some 3) false delete_then_fail initial_state
        = (Raise AssertionError, (delete_then_fail 0 sample_created).2))).
Proof.
  split.
  - apply (scope_exit_never_suppresses 5 (Some 3) false publish_then_fail
             initial_state 0 sample_created sample_built RuntimeError).
    + reflexivity.
    + reflexivity.
  - apply (scope_exit_never_suppresses 5 (Some 3) false delete_then_fail
             initial_state 0 sample_created
             (delete_then_fail 0 sample_created).2 RuntimeError).
    + reflexivity.
    + reflexivity.
Defined.

(** C10.  When the body of a publication scope ends without an exception,
    the scope exit changes one attribute of the instance, [complete]:
    [pass_through], [publisher] and [repository_version] are what they
    were when the body ended, which is what they were when the scope was
    entered unless the body assigned to them; the row saved holds the
    same values. *)
Theorem scope_exit_changes_only_complete
    rv publ pt body st mgr st0 st1 o0 o1 :
  Publication.create rv publ pt st = (Ok mgr, st0) ->
  heap st0 !! mgr = Some o0 ->
  body mgr st0 = (Ok tt, st1) ->
  heap st1 !! mgr = Some o1 ->
  (pk o1 = None -> publications (db st1) !! pk_supply st1 = None) ->
  exists k st2 o2,
    publication_scope rv publ pt body st = (Ok tt, st2) /\
    heap st2 !! mgr = Some o2 /\
    complete (fields o2) = true /\
    pass_through (fields o2) = pass_through (fields o1) /\
    publisher (fields o2) = publisher (fields o1) /\
    repository_version (fields o2) = repository_version (fields o1) /\
    pk o2 = Some k /\
    publications (db st2) !! k = Some (fields o2) /\
    (fields o1 = fields o0 ->
       pass_through (fields o2) = pass_through (fields o0) /\
       publisher (fields o2) = publisher (fields o0) /\
       repository_version (fields o2) = repository_version (fields o0)).
Proof.
  intros Hc _ Hb Ho Hfresh.
  destruct (exit_commit mgr o1 None None None st1 Ho eq_refl Hfresh)
    as (st2 & Hexit & Hdb & Hheap).
  exists (default (pk_supply st1) (pk o1)), st2,
    (mkPublication (Some (default (pk_supply st1) (pk o1)))
       (set_complete true (fields o1))).
  split.
  { rewrite (publication_scope_created _ _ _ _ _ _ _ Hc).
    rewrite (with_statement_normal _ _ _ _ Hb).
    by rewrite (bind_Ok _ _ _ _ _ Hexit). }
  split. { rewrite Hheap. by eapply heap_insert_lookup. }
  simpl. repeat (split; [done|]).
  split. { rewrite Hdb. simpl. apply lookup_insert_eq. }
  by intros ->.
Qed.

Lemma scope_exit_changes_only_complete_witness :
  exists k st2 o2,
    publication_scope 5 (Some 3) false publish_two_files initial_state = (Ok tt, st2) /\
    heap st2 !! 0 = Some o2 /\
    complete (fields o2) = true /\
    pass_through (fields o2) = pass_through (fields sample_publication) /\
    publisher (fields o2) = publisher (fields sample_publication) /\
    repository_version (fields o2) = repository_version (fields sample_publication) /\
    pk o2 = Some k /\
    publications (db st2) !! k = Some (fields o2) /\
    (fields sample_publication = fields sample_publication ->
       pass_through (fields o2) = pass_through (fields sample_publication) /\
       publisher (fields o2) = publisher (fields sample_publication) /\
       repository_version (fields o2) = repository_version (fields sample_publication)).
Proof.
  apply (scope_exit_changes_only_complete 5 (Some 3) false publish_two_files
           initial_state 0 sample_created sample_built
           sample_publication sample_publication).
  - reflexivity.
  - reflexivity.
  - reflexivity.
  - reflexivity.
  - intros H. discriminate H.
Defined.

(** ** Creating a publication *)

(** The atomic block of [create] does roll back: here the publication row
    is inserted, the provenance entry is refused, and the publication row
    is gone again. *)
Lemma create_rolls_back_example :
  (Publication.create 5 None false clashing_state).1 = Raise IntegrityError /\
  db (Publication.create 5 None false clashing_state).2 = db clashing_state /\
  publications (db (Publication.create 5 None false clashing_state).2) !! 1 = None.
Proof. by vm_compute. Qed.

(** C5.  [create], called where the sequence of primary keys is ahead of
    the tables, inserts one [Publication] row with [complete=False] and
    the given [repository_version], [publisher] and [pass_through], one
    [CreatedResource] row that references it, and returns a new instance
    saved under that row's key; the other tables are left alone.  It runs
    in one atomic block: whenever it raises, the tables are what they were
    before the call. *)
Theorem create_inserts_incomplete_publication rv publ pt st :
  publications (db st) !! pk_supply st = None ->
  created_resources (db st) !! S (pk_supply st) = None ->
  exists mgr k kr st',
    Publication.create rv publ pt st = (Ok mgr, st') /\
    publications (db st) !! k = None /\
    publications (db st') =
      <[k := mkPublicationFields false pt publ rv]> (publications (db st)) /\
    created_resources (db st) !! kr = None /\
    created_resources (db st') =
      <[kr := mkCreatedResource "publication" k]> (created_resources (db st)) /\
    heap st !! mgr = None /\
    heap st' !! mgr =
      Some (mkPublication (Some k) (mkPublicationFields false pt publ rv)) /\
    published_artifacts (db st') = published_artifacts (db st) /\
    published_metadata (db st') = published_metadata (db st) /\
    distributions (db st') = distributions (db st) /\
    (forall s e s',
       Publication.create rv publ pt s = (Raise e, s') -> db s' = db s).
Proof.
  intros Hp Hr.
  exists (length (heap st)), (pk_supply st), (S (pk_supply st)). eexists.
  split; [by apply create_ok|]. simpl.
  split; [done|]. split; [done|]. split; [done|]. split; [done|].
  split. { by apply lookup_ge_None_2. }
  split. { apply lookup_snoc_new. }
  repeat (split; [done|]).
  intros s e s'. apply create_all_or_nothing.
Qed.

Lemma create_inserts_incomplete_publication_witness :
  exists mgr k kr st',
    Publication.create 5 (Some 3) true initial_state = (Ok mgr, st') /\
    publications (db initial_state) !! k = None /\
    publications (db st') =
      <[k := mkPublicationFields false true (Some 3) 5]>
        (publications (db initial_state)) /\
    created_resources (db initial_state) !! kr = None /\
    created_resources (db st') =
      <[kr := mkCreatedResource "publication" k]>
        (created_resources (db initial_state)) /\
    heap initial_state !! mgr = None /\
    heap st' !! mgr =
      Some (mkPublication (Some k) (mkPublicationFields false true (Some 3) 5)) /\
    published_artifacts (db st') = published_artifacts (db initial_state) /\
    published_metadata (db st') = published_metadata (db initial_state) /\
    distributions (db st') = distributions (db initial_state) /\
    (forall s e s',
       Publication.create 5 (Some 3) true s = (Raise e, s') -> db s' = db s).
Proof.
  apply (create_inserts_incomplete_publication 5 (Some 3) true initial_state).
  - reflexivity.
  - reflexivity.
Defined.

(** ** Uniqueness of published files *)

(** The constraints are per table: a metadata file may be published under
    the path of an artifact of the same publication. *)
Lemma same_path_across_tables_is_accepted :
  (PublishedMetadata.save
     (mkPublishedMetadata (mkPublishedFile "pool/a.rpm" 1) "copy")
     sample_built).1 = Ok 5.
Proof. by vm_compute. Qed.

(** C3.  Saving a new [PublishedArtifact] that has the publication and
    either the content artifact or the relative path of a row already in
    the table, or a new [PublishedMetadata] that has the publication and
    either the file or the relative path of a row already in the table,
    raises [IntegrityError] (the uniqueness violation the error taxonomy
    calls DuplicatePath) and leaves the whole state as it was: the second
    entry is not persisted. *)
Theorem duplicate_entry_is_refused :
  (forall (a r : PublishedArtifact) i st,
     published_artifacts (db st) !! i = Some r ->
     publication r = publication a ->
     content_artifact r = content_artifact a \/ relative_path r = relative_path a ->
     PublishedArtifact.save a st = (Raise IntegrityError, st)) /\
  (forall (m r : PublishedMetadata) i st,
     published_metadata (db st) !! i = Some r ->
     publication r = publication m ->
     file r = file m \/ relative_path r = relative_path m ->
     PublishedMetadata.save m st = (Raise IntegrityError, st)).
Proof.
  split.
  - intros a r i st Hr Hp Hd. by apply (artifact_save_duplicate a r i).
  - intros m r i st Hr Hp Hd. by apply (metadata_save_duplicate m r i).
Qed.

Lemma duplicate_entry_is_refused_witness :
  PublishedArtifact.save
    (mkPublishedArtifact (mkPublishedFile "pool/a.rpm" 1) 8) sample_built
    = (Raise IntegrityError, sample_built) /\
  PublishedArtifact.save
    (mkPublishedArtifact (mkPublishedFile "pool/b.rpm" 1) 7) sample_built
    = (Raise IntegrityError, sample_built) /\
  PublishedMetadata.save
    (mkPublishedMetadata (mkPublishedFile "repodata/repomd.xml" 1) "repomd-2")
    sample_built
    = (Raise IntegrityError, sample_built) /\
  PublishedMetadata.save
    (mkPublishedMetadata (mkPublishedFile "repodata/other.xml" 1) "repomd-1")
    sample_built
    = (Raise IntegrityError, sample_built).
Proof.
  destruct duplicate_entry_is_refused as [Ha Hm].
  split; [|split; [|split]].
  - apply (Ha _ first_artifact 3); [reflexivity|reflexivity|right; reflexivity].
  - apply (Ha _ first_artifact 3); [reflexivity|reflexivity|left; reflexivity].
  - apply (Hm _ first_metadata 4); [reflexivity|reflexivity|right; reflexivity].
  - apply (Hm _ first_metadata 4); [reflexivity|reflexivity|left; reflexivity].
Defined.

(** ** Exceptions that test false *)

(** C2, at a body that raises an exception whose truth value is false:
    [__exit__] tests [not exc_val], takes the branch meant for a body
    that did not raise, and the publication stays, marked complete, with
    the files published so far and its provenance entry, while the
    exception propagates. *)
Theorem scope_failing_with_false_exception_keeps_publication :
  (publication_scope 5 (Some 3) false publish_then_fail_falsy initial_state).1
    = Raise EmptyResponseError /\
  publications
    (db (publication_scope 5 (Some 3) false publish_then_fail_falsy initial_state).2)
    !! 1 = Some (mkPublicationFields true false (Some 3) 5) /\
  published_artifacts
    (db (publication_scope 5 (Some 3) false publish_then_fail_falsy initial_state).2)
    !! 3 = Some first_artifact /\
  published_metadata
    (db (publication_scope 5 (Some 3) false publish_then_fail_falsy initial_state).2)
    !! 4 = Some first_metadata /\
  created_resources
    (db (publication_scope 5 (Some 3) false publish_then_fail_falsy initial_state).2)
    !! 2 = Some (mkCreatedResource "publication" 1).
Proof. by vm_compute. Qed.

(** The same body with an exception that tests true: nothing is left. *)
Lemma scope_failing_with_true_exception_deletes_publication :
  (publication_scope 5 (Some 3) false publish_then_fail initial_state).1
    = Raise RuntimeError /\
  db (publication_scope 5 (Some 3) false publish_then_fail initial_state).2
    = empty_db.
Proof. by vm_compute. Qed.

(** C4, at the same input: when the body has raised, the row of the
    publication has [complete=False]; the scope exit, entered with the
    exception, sets it to [True]. *)
Theorem complete_set_at_exit_of_failing_scope :
  publish_then_fail_falsy 0 sample_created = (Raise EmptyResponseError, sample_built) /\
  publications (db sample_built) !! 1 = Some (mkPublicationFields false false (Some 3) 5) /\
  (Publication.__exit__ 0 (Some "EmptyResponseError") (Some EmptyResponseError)
     (Some tt) sample_built).1 = Ok PyNone /\
  publications
    (db (Publication.__exit__ 0 (Some "EmptyResponseError") (Some EmptyResponseError)
           (Some tt) sample_built).2)
    !! 1 = Some (mkPublicationFields true false (Some 3) 5).
Proof. by vm_compute. Qed.

(** ** The [complete] flag over all calls *)

Lemma Model_save_Ok_inv self o st st' :
  heap st !! self = Some o ->
  Model_save self st = (Ok tt, st') ->
  publications (db st') =
    <[default (pk_supply st) (pk o) := fields o]> (publications (db st)).
Proof.
  intros Ho. destruct (pk o) as [k|] eqn:Hk.
  - rewrite (Model_save_update self o k) by done. by intros [= <-].
  - destruct (publications (db st) !! pk_supply st) as [x|] eqn:Hp.
    + unfold Model_save. run. rewrite Ho. simpl. rewrite Hk. simpl.
      destruct (decide _) as [_|Hn]; [by intros [=]|].
      exfalso. apply Hn. by exists x.
    + rewrite (Model_save_insert self o) by done. by intros [= <-].
Qed.

Lemma delete_publications self st k f :
  publications (db (Publication.delete self st).2) !! k = Some f ->
  publications (db st) !! k = Some f.
Proof.
  destruct (heap st !! self) as [o|] eqn:Ho.
  - destruct (pk o) as [j|] eqn:Hj.
    + rewrite (delete_saved self o j) by done. simpl.
      rewrite lookup_delete_Some. by intros [_ ?].
    + unfold Publication.delete, transaction_atomic,
        CreatedResource.objects_filter_delete, Model_delete.
      run. rewrite Ho. simpl. rewrite Hj. simpl. rewrite Ho. simpl.
      by rewrite Hj.
  - unfold Publication.delete, transaction_atomic. run. by rewrite Ho.
Qed.

Lemma create_publications rv publ pt st k f :
  publications (db (Publication.create rv publ pt st).2) !! k = Some f ->
  publications (db st) !! k = Some f \/
  (publications (db st) !! k = None /\ complete f = false).
Proof.
  destruct (Publication.create rv publ pt st) as [[mgr|e] st'] eqn:Hc; simpl.
  2:{ rewrite (create_all_or_nothing _ _ _ _ _ _ Hc). by left. }
  destruct (publications (db st) !! pk_supply st) as [x|] eqn:Hp.
  { (* the key is taken: the insert is refused *)
    exfalso. revert Hc. unfold Publication.create, transaction_atomic.
    erewrite bind_Ok by (unfold new_instance; reflexivity).
    assert (Hset : exists o,
      (match publ with
       | Some _ =>
           o ← getobj (length (heap st));
           setobj (length (heap st))
             (mkPublication (pk o) (set_publisher publ (fields o)))
       | None => ret tt
       end)
        (set_heap (heap st ++
           [mkPublication None (mkPublicationFields false pt None rv)]) st)
      = (Ok tt, set_heap (heap st ++ [mkPublication None o]) st)).
    { destruct publ as [p|]; [|by eexists].
      erewrite bind_Ok by (apply getobj_Ok; apply lookup_snoc_new).
      unfold setobj, modify. simpl. rewrite insert_snoc_new. by eexists. }
    destruct Hset as [o Hset]. erewrite bind_Ok by exact Hset.
    unfold Model_save at 1. run. rewrite lookup_snoc_new. simpl.
    rewrite Hp. destruct (decide _) as [_|Hn]; [by intros [=]|].
    exfalso. apply Hn. by eexists. }
  destruct (created_resources (db st) !! S (pk_supply st)) as [x|] eqn:Hr.
  { (* the provenance entry is refused: the publication row is rolled back *)
    exfalso. revert Hc. unfold Publication.create, transaction_atomic.
    match goal with
    | |- context [let (_, _) := ?c in _] => destruct c as [[a|e'] st1] eqn:Hb
    end; [|by intros [=]].
    exfalso. revert Hb.
    erewrite bind_Ok by (unfold new_instance; reflexivity).
    assert (Hset : exists o,
      (match publ with
       | Some _ =>
           o ← getobj (length (heap st));
           setobj (length (heap st))
             (mkPublication (pk o) (set_publisher publ (fields o)))
       | None => ret tt
       end)
        (set_heap (heap st ++
           [mkPublication None (mkPublicationFields false pt None rv)]) st)
      = (Ok tt, set_heap (heap st ++ [mkPublication None o]) st)).
    { destruct publ as [p|]; [|by eexists].
      erewrite bind_Ok by (apply getobj_Ok; apply lookup_snoc_new).
      unfold setobj, modify. simpl. rewrite insert_snoc_new. by eexists. }
    destruct Hset as [o Hset]. erewrite bind_Ok by exact Hset.
    erewrite bind_Ok; cycle 1.
    { apply Model_save_insert with (o := mkPublication None o);
        [apply lookup_snoc_new|done|done]. }
    simpl. rewrite insert_snoc_new.
    erewrite bind_Ok; cycle 1.
    { unfold CreatedResource.new.
      erewrite bind_Ok by (apply getobj_Ok; apply lookup_snoc_new).
      reflexivity. }
    unfold CreatedResource.save. run. rewrite Hr.
    destruct (decide _) as [_|Hn]; [by intros [=]|].
    exfalso. apply Hn. by eexists. }
  rewrite (create_ok rv publ pt st Hp Hr) in Hc. injection Hc as _ <-. simpl.
  destruct (decide (k = pk_supply st)) as [->|Hne].
  - rewrite lookup_insert_eq. intros [= <-]. by right.
  - rewrite lookup_insert_ne by done. by left.
Qed.

(** Every [Publication] row found after a call is the row that was there
    before it, or was written by an [__exit__] that took the branch of
    [not exc_val] and is complete, or is the new, incomplete row of a
    [create]. *)
Lemma row_after_call c st k f :
  publications (db (perform c st)) !! k = Some f ->
  publications (db st) !! k = Some f \/
  (complete f = true /\
   exists self ty ev tb, c = Exit self ty ev tb /\ exc_truthy ev = false) \/
  (publications (db st) !! k = None /\ complete f = false /\
   exists rv publ pt, c = Create rv publ pt).
Proof.
  destruct c as [rv publ pt|self|self|self ty ev tb|a|m]; simpl.
  - intros [?|[? ?]]%create_publications; [by left|].
    right. right. eauto 10.
  - intros ?%delete_publications. by left.
  - by left.
  - unfold Publication.__exit__. destruct (exc_truthy ev) eqn:Hev; simpl.
    + unfold mbind, M_bind, bind.
      pose proof (delete_publications self st k f) as Hd.
      destruct (Publication.delete self st) as [[[]|e] st']; simpl in *; auto.
    + run. destruct (heap st !! self) as [o|] eqn:Ho; simpl; [|by left].
      set (o' := mkPublication (pk o) (set_complete true (fields o))).
      set (st1 := set_heap (<[self := o']> (heap st)) st).
      assert (Ho' : heap st1 !! self = Some o') by by eapply heap_insert_lookup.
      destruct (Model_save self st1) as [[[]|e] st2] eqn:Hs; simpl.
      * rewrite (Model_save_Ok_inv self o' st1 st2 Ho' Hs). simpl.
        destruct (decide (k = default (pk_supply st) (pk o))) as [->|Hne].
        -- rewrite lookup_insert_eq. intros [= <-].
           right. left. split; [done|]. eauto 10.
        -- rewrite lookup_insert_ne by done. by left.
      * rewrite (Model_save_raise _ _ _ _ Hs). by left.
  - unfold PublishedArtifact.save. run.
    destruct (decide (map_Exists _ _)); [by left|].
    destruct (decide (is_Some (publications _ !! _))); [|by left].
    simpl. destruct (decide _); by left.
  - unfold PublishedMetadata.save. run.
    destruct (decide (map_Exists _ _)); [by left|].
    destruct (decide (is_Some (publications _ !! _))); [|by left].
    simpl. destruct (decide _); by left.
Qed.

(** X13.  No call of any method sets [complete] back to [False]: a
    publication row that is complete before a call of [create],
    [delete], [__enter__], [__exit__] or a save of a published file is
    complete after it, if it is still there. *)
Lemma complete_never_reset c st k f f' :
  publications (db st) !! k = Some f -> complete f = true ->
  publications (db (perform c st)) !! k = Some f' ->
  complete f' = true.
Proof.
  intros Hk Hc [H|[[H _]|[H _]]]%row_after_call; congruence.
Qed.

(** [complete] goes from [False] to [True] only in [__exit__], on the
    branch of [not exc_val]. *)
Lemma complete_set_only_by_exit c st k f f' :
  publications (db st) !! k = Some f -> complete f = false ->
  publications (db (perform c st)) !! k = Some f' -> complete f' = true ->
  exists self ty ev tb, c = Exit self ty ev tb /\ exc_truthy ev = false.
Proof.
  intros Hk Hc [H|[[_ H]|[H _]]]%row_after_call Hc'; [congruence|done|congruence].
Qed.

(** X14.  A publication becomes servable, that is complete, only by an
    [__exit__] on the branch of [not exc_val]: neither [create] nor the
    saving of published files nor [delete] makes one servable. *)
Lemma servable_only_by_exit c st k f :
  servable (db st) !! k = None ->
  servable (db (perform c st)) !! k = Some f ->
  exists self ty ev tb, c = Exit self ty ev tb /\ exc_truthy ev = false.
Proof.
  unfold servable. intros Hn [Hk Hc]%map_lookup_filter_Some. simpl in Hc.
  apply row_after_call in Hk as [Hk|[[_ H]|(_ & Hf & _)]]; [|done|congruence].
  exfalso. assert (Hs : filter (fun kv : ID * PublicationFields =>
                                  complete kv.2 = true)
                          (publications (db st)) !! k = Some f).
  { by apply map_lookup_filter_Some. }
  congruence.
Qed.

(** What [create] leaves is not servable. *)
Lemma created_publication_not_servable rv publ pt st :
  publications (db st) !! pk_supply st = None ->
  created_resources (db st) !! S (pk_supply st) = None ->
  servable (db (Publication.create rv publ pt st).2) !! pk_supply st = None.
Proof.
  intros Hp Hr. rewrite (create_ok rv publ pt st Hp Hr). unfold servable. simpl.
  apply map_lookup_filter_None. right. intros f.
  rewrite lookup_insert_eq. by intros [= <-].
Qed.

(** ** What [create] and [delete] leave behind *)

(** [delete] leaves the tables as they are, or as [deleted_db] of the
    instance's key. *)
Lemma delete_db self st :
  db (Publication.delete self st).2 = db st \/
  exists o k, heap st !! self = Some o /\ pk o = Some k /\
    db (Publication.delete self st).2 = deleted_db k (db st).
Proof.
  destruct (heap st !! self) as [o|] eqn:Ho.
  - destruct (pk o) as [k|] eqn:Hk.
    + right. exists o, k. by rewrite (delete_saved self o k).
    + left. by rewrite (delete_unsaved self o).
  - left. by rewrite delete_no_object.
Qed.

(** [create] returns only when the two keys it takes from the sequence
    are free. *)
Lemma create_Ok_fresh rv publ pt st mgr st' :
  Publication.create rv publ pt st = (Ok mgr, st') ->
  publications (db st) !! pk_supply st = None /\
  created_resources (db st) !! S (pk_supply st) = None.
Proof.
  intros Hc.
  assert (Hset : exists o,
    (match publ with
     | Some _ =>
         o ← getobj (length (heap st));
         setobj (length (heap st))
           (mkPublication (pk o) (set_publisher publ (fields o)))
     | None => ret tt
     end)
      (set_heap (heap st ++
         [mkPublication None (mkPublicationFields false pt None rv)]) st)
    = (Ok tt, set_heap (heap st ++ [mkPublication None o]) st)).
  { destruct publ as [p|]; [|by eexists].
    erewrite bind_Ok by (apply getobj_Ok; apply lookup_snoc_new).
    unfold setobj, modify. simpl. rewrite insert_snoc_new. by eexists. }
  destruct Hset as [o Hset].
  destruct (publications (db st) !! pk_supply st) as [x|] eqn:Hp.
  { exfalso. revert Hc. unfold Publication.create, transaction_atomic.
    erewrite bind_Ok by (unfold new_instance; reflexivity).
    erewrite bind_Ok by exact Hset.
    unfold Model_save at 1. run. rewrite lookup_snoc_new. simpl.
    rewrite Hp. destruct (decide _) as [_|Hn]; [by intros [=]|].
    exfalso. apply Hn. by eexists. }
  split; [done|].
  destruct (created_resources (db st) !! S (pk_supply st)) as [x|] eqn:Hr; [|done].
  exfalso. revert Hc. unfold Publication.create, transaction_atomic.
  match goal with
  | |- context [let (_, _) := ?c in _] => destruct c as [[a|e'] st1] eqn:Hb
  end; [|by intros [=]].
  exfalso. revert Hb.
  erewrite bind_Ok by (unfold new_instance; reflexivity).
  erewrite bind_Ok by exact Hset.
  erewrite bind_Ok; cycle 1.
  { apply Model_save_insert with (o := mkPublication None o);
      [apply lookup_snoc_new|done|done]. }
  simpl. rewrite insert_snoc_new.
  erewrite bind_Ok; cycle 1.
  { unfold CreatedResource.new.
    erewrite bind_Ok by (apply getobj_Ok; apply lookup_snoc_new).
    reflexivity. }
  unfold CreatedResource.save. run. rewrite Hr.
  destruct (decide _) as [_|Hn]; [by intros [=]|].
  exfalso. apply Hn. by eexists.
Qed.

Lemma create_db rv publ pt st :
  db (Publication.create rv publ pt st).2 = db st \/
  (publications (db st) !! pk_supply st = None /\
   created_resources (db st) !! S (pk_supply st) = None /\
   db (Publication.create rv publ pt st).2 = created_db rv publ pt st).
Proof.
  destruct (Publication.create rv publ pt st) as [[mgr|e] st'] eqn:Hc; simpl.
  - right. destruct (create_Ok_fresh _ _ _ _ _ _ Hc) as [Hp Hr].
    rewrite (create_ok rv publ pt st Hp Hr) in Hc. by injection Hc as _ <-.
  - left. by apply create_all_or_nothing in Hc.
Qed.

(** Deleting the publication [k] from the tables [create] left, when
    nothing referred to [k] before, gives back the tables [create]
    found. *)
Lemma deleted_db_created rv publ pt st :
  unreferenced (pk_supply st) (db st) ->
  created_resources (db st) !! S (pk_supply st) = None ->
  deleted_db (pk_supply st) (created_db rv publ pt st) = db st.
Proof.
  intros [(Hp & Ha & Hm & Hr) Hd] Hfresh.
  destruct st as [[P A Me R D] k h]. simpl in *.
  unfold deleted_db, collect_and_delete, created_db. simpl. f_equal.
  - by apply delete_insert_id.
  - apply map_filter_id. intros i a. apply Ha.
  - apply map_filter_id. intros i m. apply Hm.
  - rewrite map_filter_insert_False by (simpl; intros Hne; by apply Hne).
    rewrite delete_id by done.
    apply map_filter_id. intros i r. apply Hr.
  - rewrite <- (map_fmap_id D) at 2. apply map_fmap_ext. intros i x Hx.
    unfold set_null. destruct x as [n b p]. simpl. f_equal.
    case_decide as Hk; [|done]. by destruct (Hd i _ Hx).
Qed.

(** [unreferenced], from checks that can be evaluated on given tables. *)
Lemma unreferenced_check k d :
  publications d !! k = None ->
  map_Forall (fun _ (a : PublishedArtifact) => publication a <> k)
    (published_artifacts d) ->
  map_Forall (fun _ (m : PublishedMetadata) => publication m <> k)
    (published_metadata d) ->
  map_Forall (fun _ r => object_id r <> k) (created_resources d) ->
  map_Forall (fun _ x => dist_publication x <> Some k) (distributions d) ->
  unreferenced k d.
Proof. intros Hp Ha Hm Hr Hd. by repeat split. Qed.

(** X1.  A publication that is created and then deleted leaves no trace:
    where nothing refers to the key the sequence hands out next,
    [Publication.create] followed by [delete] on the instance it returned
    gives back the tables as they were before [create], row for row in
    every table, and the instance is left without primary key. *)
Theorem create_then_delete_restores rv publisher pt st :
  unreferenced (pk_supply st) (db st) ->
  created_resources (db st) !! S (pk_supply st) = None ->
  exists mgr st1 st2,
    Publication.create rv publisher pt st = (Ok mgr, st1) /\
    Publication.delete mgr st1 = (Ok tt, st2) /\
    db st2 = db st /\
    heap st2 !! mgr = Some (mkPublication None (created_fields rv publisher pt)).
Proof.
  intros Hu Hr. pose proof Hu as [(Hp & _) _].
  rewrite (create_ok rv publisher pt st Hp Hr).
  do 2 eexists. eexists. split; [done|].
  erewrite delete_saved; [|apply lookup_snoc_new|done].
  split; [done|]. simpl. split.
  - by apply deleted_db_created.
  - rewrite insert_snoc_new. apply lookup_snoc_new.
Qed.

Lemma create_then_delete_restores_witness :
  exists mgr st1 st2,
    Publication.create 7 (Some 3) true two_publications_state = (Ok mgr, st1) /\
    Publication.delete mgr st1 = (Ok tt, st2) /\
    db st2 = db two_publications_state /\
    heap st2 !! mgr = Some (mkPublication None (created_fields 7 (Some 3) true)).
Proof.
  apply (create_then_delete_restores 7 (Some 3) true two_publications_state).
  - apply unreferenced_check; [reflexivity|..];
      apply (bool_decide_unpack _); vm_compute; exact I.
  - reflexivity.
Defined.

(** ** Saving published files: the two outcomes *)

Lemma artifact_save_cases (a : PublishedArtifact) st :
  (exists st', PublishedArtifact.save a st = (Raise IntegrityError, st') /\
     db st' = db st /\ heap st' = heap st) \/
  ((forall i r, published_artifacts (db st) !! i = Some r ->
                ~ PublishedArtifact.conflicts a r) /\
   is_Some (publications (db st) !! publication a) /\
   published_artifacts (db st) !! pk_supply st = None /\
   PublishedArtifact.save a st =
     (Ok (pk_supply st),
      mkState
        (set_published_artifacts
           (<[pk_supply st := a]> (published_artifacts (db st))) (db st))
        (S (pk_supply st)) (heap st))).
Proof.
  unfold PublishedArtifact.save. run.
  destruct (decide (map_Exists _ _)) as [|Hn]; [left; by eexists|].
  destruct (decide (is_Some (publications _ !! _))) as [Hp|?]; [|left; by eexists].
  simpl. destruct (decide _) as [|Hf]; [left; by eexists|].
  right. split; [|split; [done|split; [|done]]].
  - intros i r Hr Hc. apply Hn. by exists i, r.
  - by apply eq_None_not_Some.
Qed.

Lemma metadata_save_cases (m : PublishedMetadata) st :
  (exists st', PublishedMetadata.save m st = (Raise IntegrityError, st') /\
     db st' = db st /\ heap st' = heap st) \/
  ((forall i r, published_metadata (db st) !! i = Some r ->
                ~ PublishedMetadata.conflicts m r) /\
   is_Some (publications (db st) !! publication m) /\
   published_metadata (db st) !! pk_supply st = None /\
   PublishedMetadata.save m st =
     (Ok (pk_supply st),
      mkState
        (set_published_metadata
           (<[pk_supply st := m]> (published_metadata (db st))) (db st))
        (S (pk_supply st)) (heap st))).
Proof.
  unfold PublishedMetadata.save. run.
  destruct (decide (map_Exists _ _)) as [|Hn]; [left; by eexists|].
  destruct (decide (is_Some (publications _ !! _))) as [Hp|?]; [|left; by eexists].
  simpl. destruct (decide _) as [|Hf]; [left; by eexists|].
  right. split; [|split; [done|split; [|done]]].
  - intros i r Hr Hc. apply Hn. by exists i, r.
  - by apply eq_None_not_Some.
Qed.

(** ** Bodies that publish a list of files *)

(** Files added to publication [k] do not show once [k] is deleted. *)
Lemma deleted_db_add_artifact k i (a : PublishedArtifact) d :
  publication a = k ->
  published_artifacts d !! i = None ->
  deleted_db k (set_published_artifacts (<[i := a]> (published_artifacts d)) d) =
  deleted_db k d.
Proof.
  intros Ha Hi. unfold deleted_db, collect_and_delete. simpl. f_equal.
  apply map_filter_insert_not'; simpl; [by intros ?|].
  intros y Hy. congruence.
Qed.

Lemma deleted_db_add_metadata k i (m : PublishedMetadata) d :
  publication m = k ->
  published_metadata d !! i = None ->
  deleted_db k (set_published_metadata (<[i := m]> (published_metadata d)) d) =
  deleted_db k d.
Proof.
  intros Hm Hi. unfold deleted_db, collect_and_delete. simpl. f_equal.
  apply map_filter_insert_not'; simpl; [by intros ?|].
  intros y Hy. congruence.
Qed.

Lemma add_entry_frame mgr o k x st :
  heap st !! mgr = Some o -> pk o = Some k ->
  exists r st', add_entry mgr x st = (r, st') /\
    (r = Ok tt \/ r = Raise IntegrityError) /\
    heap st' = heap st /\
    deleted_db k (db st') = deleted_db k (db st).
Proof.
  intros Ho Hk. destruct x as [c p|f p]; simpl.
  - unfold add_artifact. erewrite bind_Ok by by apply getobj_Ok. rewrite Hk.
    destruct (artifact_save_cases
                (mkPublishedArtifact (mkPublishedFile p k) c) st)
      as [(st' & Hs & Hd & Hh)|(_ & _ & Hf & Hs)].
    + erewrite bind_Raise by exact Hs. do 2 eexists. split; [done|].
      split; [by right|]. split; [done|]. by rewrite Hd.
    + erewrite bind_Ok by exact Hs. do 2 eexists. split; [done|].
      split; [by left|]. split; [done|]. simpl.
      by apply deleted_db_add_artifact.
  - unfold add_metadata_file. erewrite bind_Ok by by apply getobj_Ok. rewrite Hk.
    destruct (metadata_save_cases
                (mkPublishedMetadata (mkPublishedFile p k) f) st)
      as [(st' & Hs & Hd & Hh)|(_ & _ & Hf & Hs)].
    + erewrite bind_Raise by exact Hs. do 2 eexists. split; [done|].
      split; [by right|]. split; [done|]. by rewrite Hd.
    + erewrite bind_Ok by exact Hs. do 2 eexists. split; [done|].
      split; [by left|]. split; [done|]. simpl.
      by apply deleted_db_add_metadata.
Qed.

Lemma add_entries_frame mgr o k es st :
  heap st !! mgr = Some o -> pk o = Some k ->
  exists r st', add_entries mgr es st = (r, st') /\
    (r = Ok tt \/ r = Raise IntegrityError) /\
    heap st' = heap st /\
    deleted_db k (db st') = deleted_db k (db st).
Proof.
  revert st. induction es as [|x es IH]; intros st Ho Hk; simpl.
  - do 2 eexists. split; [done|]. split; [by left|]. done.
  - destruct (add_entry_frame mgr o k x st Ho Hk)
      as (r & st1 & Hx & [->| ->] & Hh & Hd).
    + erewrite bind_Ok by exact Hx.
      destruct (IH st1) as (r & st2 & Hes & Hr & Hh2 & Hd2);
        [by rewrite Hh|done|].
      exists r, st2. split; [done|]. split; [done|].
      split; congruence.
    + erewrite bind_Raise by exact Hx. do 2 eexists. split; [done|].
      split; [by right|]. done.
Qed.

(** X2.  A scope that fails leaves nothing behind.  Where nothing refers
    to the key the sequence hands out next, a publication scope whose
    body saves any list of published artifacts and metadata files and
    then raises an exception that tests true ends with an exception (the
    body's, or the [IntegrityError] of a save that was refused), and the
    tables are row for row what they were before the scope: the
    publication, its provenance entry and every file saved for it are
    gone. *)
Theorem failing_scope_restores_tables rv publisher pt es e st :
  unreferenced (pk_supply st) (db st) ->
  created_resources (db st) !! S (pk_supply st) = None ->
  exc_bool e = true ->
  exists e' st',
    publication_scope rv publisher pt (failing_body es e) st = (Raise e', st') /\
    (e' = e \/ e' = IntegrityError) /\
    db st' = db st.
Proof.
  intros Hu Hr He. pose proof Hu as [(Hp & _) _].
  pose proof (create_ok rv publisher pt st Hp Hr) as Hc.
  rewrite (publication_scope_created _ _ _ _ _ _ _ Hc).
  set (o := mkPublication (Some (pk_supply st)) (created_fields rv publisher pt)).
  set (st0 := mkState _ _ _) in *.
  assert (Ho : heap st0 !! length (heap st) = Some o) by apply lookup_snoc_new.
  destruct (add_entries_frame (length (heap st)) o (pk_supply st) es st0 Ho eq_refl)
    as (r & st1 & Hes & Hrs & Hh & Hd).
  assert (Hb : exists e', (e' = e \/ e' = IntegrityError) /\
    failing_body es e (length (heap st)) st0 = (Raise e', st1)).
  { unfold failing_body. destruct Hrs as [-> | ->].
    - exists e. split; [by left|]. by erewrite bind_Ok by exact Hes.
    - exists IntegrityError. split; [by right|].
      by erewrite bind_Raise by exact Hes. }
  destruct Hb as (e' & He' & Hb).
  assert (Ht : exc_bool e' = true) by (by destruct He' as [-> | ->]).
  rewrite (with_statement_raise _ _ _ _ _ Hb).
  erewrite bind_Ok; cycle 1.
  { apply (exit_abort _ o (pk_supply st)); [by rewrite Hh|done|done]. }
  simpl. eexists _, _. split; [done|]. split; [done|]. simpl.
  rewrite Hd. by apply deleted_db_created.
Qed.

Lemma failing_scope_restores_tables_witness :
  exists e' st',
    publication_scope 7 (Some 3) true
      (failing_body [Artifact 7 "pool/a.rpm"; Metadata "repomd-1" "repodata/repomd.xml"]
         RuntimeError)
      two_publications_state = (Raise e', st') /\
    (e' = RuntimeError \/ e' = IntegrityError) /\
    db st' = db two_publications_state.
Proof.
  apply (failing_scope_restores_tables 7 (Some 3) true _ RuntimeError
           two_publications_state).
  - apply unreferenced_check; [reflexivity|..];
      apply (bool_decide_unpack _); vm_compute; exact I.
  - reflexivity.
  - reflexivity.
Defined.

(** ** [Publication.delete] *)

(** X3.  A publication is deleted once: [delete] on a saved instance
    returns and leaves the instance without primary key, so that a second
    [delete] through the same instance raises [AssertionError] and
    changes nothing. *)
Theorem second_delete_is_refused self o k st :
  heap st !! self = Some o -> pk o = Some k ->
  exists st1,
    Publication.delete self st = (Ok tt, st1) /\
    Publication.delete self st1 = (Raise AssertionError, st1).
Proof.
  intros Ho Hk. rewrite (delete_saved self o k st Ho Hk).
  eexists. split; [done|].
  apply (delete_unsaved self (mkPublication None (fields o))); [|done].
  simpl. by eapply heap_insert_lookup.
Qed.

Lemma second_delete_is_refused_witness :
  exists st1,
    Publication.delete 0 two_publications_state = (Ok tt, st1) /\
    Publication.delete 0 st1 = (Raise AssertionError, st1).
Proof.
  apply (second_delete_is_refused 0
           (mkPublication (Some 1) (created_fields 5 None false)) 1
           two_publications_state); reflexivity.
Defined.

(** X4.  [delete] selects the provenance entries by [object_id] alone
    (line 107): after [delete] on the saved publication [k] the
    [CreatedResource] rows are exactly those of before whose [object_id]
    is not [k]; an entry of another content type that carries the same
    object id goes as well, and no other entry is touched. *)
Theorem delete_removes_provenance_by_object_id self o k st i r :
  heap st !! self = Some o -> pk o = Some k ->
  created_resources (db (Publication.delete self st).2) !! i = Some r <->
  created_resources (db st) !! i = Some r /\ object_id r <> k.
Proof.
  intros Ho Hk. rewrite (delete_saved self o k st Ho Hk). simpl.
  apply map_lookup_filter_Some.
Qed.

Lemma delete_removes_provenance_by_object_id_witness :
  created_resources (db (Publication.delete 0 two_publications_state).2) !! 4
    = Some (mkCreatedResource "repository" 1) <->
  created_resources (db two_publications_state) !! 4
    = Some (mkCreatedResource "repository" 1) /\
  object_id (mkCreatedResource "repository" 1) <> 1.
Proof.
  apply (delete_removes_provenance_by_object_id 0
           (mkPublication (Some 1) (created_fields 5 None false)) 1
           two_publications_state); reflexivity.
Defined.

(** X5.  [delete] removes the publication and what belongs to it, and
    nothing of another publication: afterwards the row of the publication
    is gone and every other [Publication] row is as before, and the
    [PublishedArtifact] and [PublishedMetadata] rows are exactly those of
    before that belong to other publications (the cascade of line 148). *)
Theorem delete_removes_only_the_publication self o k st :
  heap st !! self = Some o -> pk o = Some k ->
  exists st1,
    Publication.delete self st = (Ok tt, st1) /\
    publications (db st1) !! k = None /\
    (forall j, j <> k -> publications (db st1) !! j = publications (db st) !! j) /\
    (forall i (a : PublishedArtifact),
       published_artifacts (db st1) !! i = Some a <->
       published_artifacts (db st) !! i = Some a /\ publication a <> k) /\
    (forall i (m : PublishedMetadata),
       published_metadata (db st1) !! i = Some m <->
       published_metadata (db st) !! i = Some m /\ publication m <> k).
Proof.
  intros Ho Hk. rewrite (delete_saved self o k st Ho Hk).
  eexists. split; [done|]. simpl. split; [apply lookup_delete_eq|].
  split; [intros j Hj; by apply lookup_delete_ne|].
  split; intros i x; apply map_lookup_filter_Some.
Qed.

Lemma delete_removes_only_the_publication_witness :
  exists st1,
    Publication.delete 0 two_publications_state = (Ok tt, st1) /\
    publications (db st1) !! 1 = None /\
    (forall j, j <> 1 ->
       publications (db st1) !! j = publications (db two_publications_state) !! j) /\
    (forall i (a : PublishedArtifact),
       published_artifacts (db st1) !! i = Some a <->
       published_artifacts (db two_publications_state) !! i = Some a /\
       publication a <> 1) /\
    (forall i (m : PublishedMetadata),
       published_metadata (db st1) !! i = Some m <->
       published_metadata (db two_publications_state) !! i = Some m /\
       publication m <> 1).
Proof.
  apply (delete_removes_only_the_publication 0
           (mkPublication (Some 1) (created_fields 5 None false)) 1
           two_publications_state); reflexivity.
Defined.

(** X6.  A distribution outlives the publication it serves
    ([on_delete=SET_NULL], line 243): [delete] on the saved publication
    [k] removes no distribution and adds none, keeps the name and the
    base path of each, and sets the publication of exactly those that
    served [k] to null. *)
Theorem delete_keeps_distributions self o k st :
  heap st !! self = Some o -> pk o = Some k ->
  exists st1,
    Publication.delete self st = (Ok tt, st1) /\
    (forall i, distributions (db st1) !! i = None <->
               distributions (db st) !! i = None) /\
    (forall i x, distributions (db st) !! i = Some x ->
       exists x', distributions (db st1) !! i = Some x' /\
         dist_name x' = dist_name x /\ base_path x' = base_path x /\
         dist_publication x' =
           if decide (dist_publication x = Some k) then None
           else dist_publication x).
Proof.
  intros Ho Hk. rewrite (delete_saved self o k st Ho Hk).
  eexists. split; [done|]. simpl. split.
  - intros i. rewrite lookup_fmap. by rewrite fmap_None.
  - intros i x Hx. rewrite lookup_fmap, Hx. simpl. by eexists.
Qed.

Lemma delete_keeps_distributions_witness :
  exists st1,
    Publication.delete 0 two_publications_state = (Ok tt, st1) /\
    (forall i, distributions (db st1) !! i = None <->
               distributions (db two_publications_state) !! i = None) /\
    (forall i x, distributions (db two_publications_state) !! i = Some x ->
       exists x', distributions (db st1) !! i = Some x' /\
         dist_name x' = dist_name x /\ base_path x' = base_path x /\
         dist_publication x' =
           if decide (dist_publication x = Some 1) then None
           else dist_publication x).
Proof.
  apply (delete_keeps_distributions 0
           (mkPublication (Some 1) (created_fields 5 None false)) 1
           two_publications_state); reflexivity.
Defined.

(** ** The tables over runs of calls *)

Lemma Model_save_db self st :
  db (Model_save self st).2 = db st \/
  exists k f,
    db (Model_save self st).2 =
      set_publications (<[k := f]> (publications (db st))) (db st).
Proof.
  unfold Model_save. run. destruct (heap st !! self) as [o|]; simpl; [|by left].
  destruct (pk o) as [k|]; simpl; [right; by eexists _, _|].
  destruct (decide _); simpl; [by left|right; by eexists _, _].
Qed.

Lemma exit_db self ty ev tb st :
  table_change (db st) (db (Publication.__exit__ self ty ev tb st).2).
Proof.
  unfold Publication.__exit__. destruct (exc_truthy ev); simpl.
  - unfold mbind, M_bind, bind.
    pose proof (delete_db self st) as Hd.
    destruct (Publication.delete self st) as [[[]|e] st']; simpl in *;
      (destruct Hd as [->|(o & k & _ & _ & ->)]; constructor).
  - run. destruct (heap st !! self) as [o|]; simpl; [|constructor].
    match goal with
    | |- context [Model_save self ?s] =>
        pose proof (Model_save_db self s) as Hs;
        destruct (Model_save self s) as [[[]|e] st2]
    end; simpl in *; (destruct Hs as [->|(k & f & ->)]; constructor).
Qed.

(** Every call changes the tables in one of the ways of [table_change]. *)
Lemma perform_table_change c st : table_change (db st) (db (perform c st)).
Proof.
  destruct c as [rv publ pt|self|self|self ty ev tb|a|m]; simpl.
  - destruct (create_db rv publ pt st) as [->|(_ & _ & ->)]; constructor.
  - destruct (delete_db self st) as [->|(o & k & _ & _ & ->)]; constructor.
  - constructor.
  - apply exit_db.
  - destruct (artifact_save_cases a st) as [(st' & Hs & Hd & _)|(? & ? & ? & Hs)];
      rewrite Hs; simpl; [rewrite Hd|]; by constructor.
  - destruct (metadata_save_cases m st) as [(st' & Hs & Hd & _)|(? & ? & ? & Hs)];
      rewrite Hs; simpl; [rewrite Hd|]; by constructor.
Qed.

Lemma perform_all_snoc cs c st :
  perform_all (cs ++ [c]) st = perform c (perform_all cs st).
Proof. unfold perform_all. by rewrite foldl_app. Qed.

Lemma table_change_references d d' :
  table_change d d' -> references_hold d -> references_hold d'.
Proof.
  intros Hc (Ha & Hm & Hd).
  destruct Hc as [|k|k f|k f j r|k a Hnc Hp Hf|k m Hnc Hp Hf]; simpl.
  - done.
  - split; [|split]; simpl.
    + intros i a [Hi Hne]%map_lookup_filter_Some. simpl in Hne.
      rewrite lookup_delete_ne by done. by eapply Ha.
    + intros i m [Hi Hne]%map_lookup_filter_Some. simpl in Hne.
      rewrite lookup_delete_ne by done. by eapply Hm.
    + intros i x j. rewrite lookup_fmap.
      destruct (distributions d !! i) as [y|] eqn:Hy; [|done].
      simpl. intros [= <-]. unfold set_null. simpl.
      case_decide as Hk; [done|]. intros Hj.
      rewrite lookup_delete_ne by congruence. by eapply Hd.
  - split; [|split]; simpl.
    + intros i a Hi. apply lookup_insert_is_Some'. right. by eapply Ha.
    + intros i m Hi. apply lookup_insert_is_Some'. right. by eapply Hm.
    + intros i x j Hi Hj. apply lookup_insert_is_Some'. right. by eapply Hd.
  - split; [|split]; simpl.
    + intros i a Hi. apply lookup_insert_is_Some'. right. by eapply Ha.
    + intros i m Hi. apply lookup_insert_is_Some'. right. by eapply Hm.
    + intros i x j' Hi Hj. apply lookup_insert_is_Some'. right. by eapply Hd.
  - split; [|split]; simpl; [|done..].
    intros i b. destruct (decide (i = k)) as [->|Hne].
    + rewrite lookup_insert_eq. by intros [= <-].
    + rewrite lookup_insert_ne by done. apply Ha.
  - split; [|split]; simpl; [done| |done].
    intros i b. destruct (decide (i = k)) as [->|Hne].
    + rewrite lookup_insert_eq. by intros [= <-].
    + rewrite lookup_insert_ne by done. apply Hm.
Qed.

Lemma artifact_conflicts_sym (a b : PublishedArtifact) :
  PublishedArtifact.conflicts a b -> PublishedArtifact.conflicts b a.
Proof. intros [? [?|?]]; split; auto. Qed.

Lemma metadata_conflicts_sym (m n : PublishedMetadata) :
  PublishedMetadata.conflicts m n -> PublishedMetadata.conflicts n m.
Proof. intros [? [?|?]]; split; auto. Qed.

Lemma table_change_unique d d' :
  table_change d d' -> unique_together d -> unique_together d'.
Proof.
  intros Hc (Ha & Hm).
  destruct Hc as [|k|k f|k f j r|k a Hnc Hp Hf|k m Hnc Hp Hf]; simpl;
    [done| |done|done| |].
  - split; simpl.
    + intros i j a b [Hi _]%map_lookup_filter_Some [Hj _]%map_lookup_filter_Some.
      by apply Ha.
    + intros i j m n [Hi _]%map_lookup_filter_Some [Hj _]%map_lookup_filter_Some.
      by apply Hm.
  - split; simpl; [|done].
    intros i j x y Hi Hj Hij.
    destruct (decide (i = k)) as [->|Hik]; destruct (decide (j = k)) as [->|Hjk];
      [done| | |].
    + rewrite lookup_insert_eq in Hi. injection Hi as <-.
      rewrite lookup_insert_ne in Hj by done. by eapply Hnc.
    + rewrite lookup_insert_eq in Hj. injection Hj as <-.
      rewrite lookup_insert_ne in Hi by done.
      intros Hc%artifact_conflicts_sym. by eapply Hnc.
    + rewrite lookup_insert_ne in Hi, Hj by done. by eapply Ha.
  - split; simpl; [done|].
    intros i j x y Hi Hj Hij.
    destruct (decide (i = k)) as [->|Hik]; destruct (decide (j = k)) as [->|Hjk];
      [done| | |].
    + rewrite lookup_insert_eq in Hi. injection Hi as <-.
      rewrite lookup_insert_ne in Hj by done. by eapply Hnc.
    + rewrite lookup_insert_eq in Hj. injection Hj as <-.
      rewrite lookup_insert_ne in Hi by done.
      intros Hc%metadata_conflicts_sym. by eapply Hnc.
    + rewrite lookup_insert_ne in Hi, Hj by done. by eapply Hm.
Qed.

(** The two consistency conditions, from checks that can be evaluated on
    given tables. *)
Lemma references_hold_check d :
  map_Forall (fun _ (a : PublishedArtifact) =>
                is_Some (publications d !! publication a))
    (published_artifacts d) ->
  map_Forall (fun _ (m : PublishedMetadata) =>
                is_Some (publications d !! publication m))
    (published_metadata d) ->
  map_Forall (fun _ x =>
                dist_publication x = None \/
                is_Some (dist_publication x ≫= fun k => publications d !! k))
    (distributions d) ->
  references_hold d.
Proof.
  intros Ha Hm Hd. split; [done|]. split; [done|].
  intros i x k Hx Hk. destruct (Hd i x Hx) as [Hn|Hs]; simpl in *.
  - congruence.
  - by rewrite Hk in Hs.
Qed.

Lemma unique_together_check d :
  map_Forall (fun i (a : PublishedArtifact) =>
    map_Forall (fun j (b : PublishedArtifact) =>
                  i <> j -> ~ PublishedArtifact.conflicts a b)
      (published_artifacts d)) (published_artifacts d) ->
  map_Forall (fun i (m : PublishedMetadata) =>
    map_Forall (fun j (n : PublishedMetadata) =>
                  i <> j -> ~ PublishedMetadata.conflicts m n)
      (published_metadata d)) (published_metadata d) ->
  unique_together d.
Proof.
  intros Ha Hm. split.
  - intros i j a b Hi Hj. by apply (Ha i a Hi j b Hj).
  - intros i j m n Hi Hj. by apply (Hm i m Hi j n Hj).
Qed.

(** X7.  The foreign keys hold over every run: if every published file
    and every distribution refers to a publication that has a row, this is
    still so after any sequence of calls of [create], [delete],
    [__enter__], [__exit__] and saves of published files, whether the
    calls return or raise. *)
Theorem references_hold_over_runs cs st :
  references_hold (db st) -> references_hold (db (perform_all cs st)).
Proof.
  intros H. induction cs as [|c cs IH] using rev_ind; [done|].
  rewrite perform_all_snoc.
  eapply table_change_references; [apply perform_table_change|done].
Qed.

Lemma references_hold_over_runs_witness :
  references_hold
    (db (perform_all
           [SaveArtifact (mkPublishedArtifact (mkPublishedFile "pool/b.rpm" 2) 8);
            Delete 0;
            Create 9 None false;
            Exit 1 None None None]
           two_publications_state)).
Proof.
  apply (references_hold_over_runs _ two_publications_state).
  apply references_hold_check; apply (bool_decide_unpack _); vm_compute; exact I.
Defined.

(** X8.  [unique_together] holds over every run: if no two
    [PublishedArtifact] rows of one publication share a content artifact
    or a relative path, and no two [PublishedMetadata] rows of one
    publication share a file or a relative path, this is still so after
    any sequence of calls, whether they return or raise. *)
Theorem unique_together_over_runs cs st :
  unique_together (db st) -> unique_together (db (perform_all cs st)).
Proof.
  intros H. induction cs as [|c cs IH] using rev_ind; [done|].
  rewrite perform_all_snoc.
  eapply table_change_unique; [apply perform_table_change|done].
Qed.

Lemma unique_together_over_runs_witness :
  unique_together
    (db (perform_all
           [SaveArtifact (mkPublishedArtifact (mkPublishedFile "pool/b.rpm" 2) 8);
            SaveArtifact (mkPublishedArtifact (mkPublishedFile "pool/b.rpm" 2) 9);
            Delete 0;
            Exit 1 None None None]
           two_publications_state)).
Proof.
  apply (unique_together_over_runs _ two_publications_state).
  apply unique_together_check; apply (bool_decide_unpack _); vm_compute; exact I.
Defined.

(** ** [__exit__] once more *)

Lemma set_complete_true_id f : complete f = true -> set_complete true f = f.
Proof. destruct f. simpl. by intros ->. Qed.

(** On a saved publication that is complete, in memory and in its row,
    [__exit__] on the branch of [not exc_val] changes nothing. *)
Lemma exit_commit_fixed self k f ty ev tb st :
  heap st !! self = Some (mkPublication (Some k) f) ->
  complete f = true ->
  publications (db st) !! k = Some f ->
  exc_truthy ev = false ->
  Publication.__exit__ self ty ev tb st = (Ok PyNone, st).
Proof.
  intros Ho Hc Hk Hev. unfold Publication.__exit__. rewrite Hev. simpl.
  run. rewrite Ho. simpl. rewrite (set_complete_true_id f Hc).
  rewrite (list_insert_id _ _ _ Ho).
  replace (set_heap (heap st) st) with st by by destruct st.
  rewrite (Model_save_update self _ k st Ho eq_refl). simpl.
  rewrite (insert_id _ _ _ Hk). by destruct st as [[] ? ?].
Qed.

Lemma Model_save_taken self o x st :
  heap st !! self = Some o -> pk o = None ->
  publications (db st) !! pk_supply st = Some x ->
  exists st', Model_save self st = (Raise IntegrityError, st').
Proof.
  intros Ho Hk Hp. unfold Model_save. run. rewrite Ho. simpl. rewrite Hk. simpl.
  rewrite Hp. destruct (decide _) as [_|Hn]; [by eexists|].
  exfalso. apply Hn. by eexists.
Qed.

(** What [__exit__] leaves when it returns from the branch of
    [not exc_val]. *)
Lemma exit_commit_Ok self ty ev tb st v st1 :
  exc_truthy ev = false ->
  Publication.__exit__ self ty ev tb st = (Ok v, st1) ->
  exists k f, heap st1 !! self = Some (mkPublication (Some k) f) /\
    complete f = true /\ publications (db st1) !! k = Some f.
Proof.
  intros Hev. unfold Publication.__exit__. rewrite Hev. simpl.
  run. destruct (heap st !! self) as [o|] eqn:Ho; simpl; [|by intros [=]].
  set (o' := mkPublication (pk o) (set_complete true (fields o))).
  set (st0 := set_heap (<[self := o']> (heap st)) st).
  assert (Ho' : heap st0 !! self = Some o') by by eapply heap_insert_lookup.
  destruct (pk o) as [k|] eqn:Hk.
  - rewrite (Model_save_update self o' k st0 Ho' eq_refl). simpl.
    intros [= _ <-]. simpl. eexists k, _. split; [done|]. split; [done|].
    apply lookup_insert_eq.
  - destruct (publications (db st0) !! pk_supply st0) as [x|] eqn:Hp.
    + destruct (Model_save_taken self o' x st0 Ho' eq_refl Hp) as [st' ->].
      by intros [=].
    + rewrite (Model_save_insert self o' st0 Ho' eq_refl Hp). simpl.
      intros [= _ <-]. simpl. eexists (pk_supply st), _.
      split; [|split; [|apply lookup_insert_eq]].
      * apply list_lookup_insert_eq. rewrite length_insert.
        by eapply lookup_lt_Some.
      * done.
Qed.

(** X9.  Leaving a scope twice is leaving it once: after an [__exit__]
    that returned from the branch of [not exc_val], a second [__exit__]
    on that branch returns [None] and changes nothing, neither the tables
    nor the instance nor the sequence of keys. *)
Theorem exit_commit_is_idempotent self ty ev tb ty' ev' tb' st v st1 :
  exc_truthy ev = false -> exc_truthy ev' = false ->
  Publication.__exit__ self ty ev tb st = (Ok v, st1) ->
  Publication.__exit__ self ty' ev' tb' st1 = (Ok PyNone, st1).
Proof.
  intros Hev Hev' (k & f & Ho & Hc & Hk)%exit_commit_Ok; [|done].
  by apply (exit_commit_fixed self k f).
Qed.

Lemma exit_commit_is_idempotent_witness :
  Publication.__exit__ 0 None None None
    (Publication.__exit__ 0 None None None two_publications_state).2 =
  (Ok PyNone, (Publication.__exit__ 0 None None None two_publications_state).2).
Proof.
  apply (exit_commit_is_idempotent 0 None None None None None None
           two_publications_state PyNone); reflexivity.
Defined.

(** ** Saving published files *)

(** X10.  What [save] returns is where the entry is: when
    [PublishedArtifact.save] returns the key [k], that key was free, the
    row under [k] is the entry that was saved, every other row is as
    before, and saving the same entry again is refused with
    [IntegrityError] and changes nothing. *)
Theorem saved_artifact_is_found (a : PublishedArtifact) st k st1 :
  PublishedArtifact.save a st = (Ok k, st1) ->
  published_artifacts (db st) !! k = None /\
  published_artifacts (db st1) !! k = Some a /\
  (forall i, i <> k ->
     published_artifacts (db st1) !! i = published_artifacts (db st) !! i) /\
  PublishedArtifact.save a st1 = (Raise IntegrityError, st1).
Proof.
  intros Hs.
  destruct (artifact_save_cases a st) as [(st' & Hs' & _)|(_ & _ & Hf & Hs')];
    rewrite Hs' in Hs; [done|]. injection Hs as <- <-. simpl.
  split; [done|]. split; [apply lookup_insert_eq|].
  split; [intros i Hi; by apply lookup_insert_ne|].
  apply (artifact_save_duplicate a a (pk_supply st)); simpl.
  - apply lookup_insert_eq.
  - split; auto.
Qed.

Lemma saved_artifact_is_found_witness :
  published_artifacts (db two_publications_state) !! 30 = None /\
  published_artifacts
    (db (PublishedArtifact.save
           (mkPublishedArtifact (mkPublishedFile "pool/b.rpm" 2) 8)
           two_publications_state).2) !! 30 =
    Some (mkPublishedArtifact (mkPublishedFile "pool/b.rpm" 2) 8) /\
  (forall i, i <> 30 ->
     published_artifacts
       (db (PublishedArtifact.save
              (mkPublishedArtifact (mkPublishedFile "pool/b.rpm" 2) 8)
              two_publications_state).2) !! i =
     published_artifacts (db two_publications_state) !! i) /\
  PublishedArtifact.save
    (mkPublishedArtifact (mkPublishedFile "pool/b.rpm" 2) 8)
    (PublishedArtifact.save
       (mkPublishedArtifact (mkPublishedFile "pool/b.rpm" 2) 8)
       two_publications_state).2 =
  (Raise IntegrityError,
   (PublishedArtifact.save
      (mkPublishedArtifact (mkPublishedFile "pool/b.rpm" 2) 8)
      two_publications_state).2).
Proof.
  apply (saved_artifact_is_found
           (mkPublishedArtifact (mkPublishedFile "pool/b.rpm" 2) 8)
           two_publications_state 30).
  vm_compute. reflexivity.
Defined.

(** X11.  No file for a publication that is gone: after [delete] on the
    saved publication [k], saving a [PublishedArtifact] or a
    [PublishedMetadata] whose publication is [k] is refused with
    [IntegrityError] (the foreign key of line 148), and the tables stay
    as [delete] left them. *)
Theorem no_file_for_a_deleted_publication self o k st
    (a : PublishedArtifact) (m : PublishedMetadata) :
  heap st !! self = Some o -> pk o = Some k ->
  publication a = k -> publication m = k ->
  exists st1,
    Publication.delete self st = (Ok tt, st1) /\
    (exists st2, PublishedArtifact.save a st1 = (Raise IntegrityError, st2) /\
                 db st2 = db st1) /\
    (exists st2, PublishedMetadata.save m st1 = (Raise IntegrityError, st2) /\
                 db st2 = db st1).
Proof.
  intros Ho Hk Ha Hm. rewrite (delete_saved self o k st Ho Hk).
  eexists. split; [done|]. split.
  - match goal with
    | |- context [PublishedArtifact.save a ?s] =>
        destruct (artifact_save_cases a s) as [(st' & Hs & Hd & _)|(_ & [x Hx] & _)]
    end; [by eexists|].
    exfalso. revert Hx. simpl. rewrite Ha. by rewrite lookup_delete_eq.
  - match goal with
    | |- context [PublishedMetadata.save m ?s] =>
        destruct (metadata_save_cases m s) as [(st' & Hs & Hd & _)|(_ & [x Hx] & _)]
    end; [by eexists|].
    exfalso. revert Hx. simpl. rewrite Hm. by rewrite lookup_delete_eq.
Qed.

Lemma no_file_for_a_deleted_publication_witness :
  exists st1,
    Publication.delete 0 two_publications_state = (Ok tt, st1) /\
    (exists st2,
       PublishedArtifact.save
         (mkPublishedArtifact (mkPublishedFile "pool/c.rpm" 1) 9) st1 =
       (Raise IntegrityError, st2) /\ db st2 = db st1) /\
    (exists st2,
       PublishedMetadata.save
         (mkPublishedMetadata (mkPublishedFile "repodata/other.xml" 1) "other-1") st1 =
       (Raise IntegrityError, st2) /\ db st2 = db st1).
Proof.
  apply (no_file_for_a_deleted_publication 0
           (mkPublication (Some 1) (created_fields 5 None false)) 1
           two_publications_state); reflexivity.
Defined.

(** ** The [complete] flag: instances of the statements over all calls *)

Lemma complete_never_reset_witness :
  complete (set_complete true (created_fields 5 None false)) = true.
Proof.
  apply (complete_never_reset
           (Delete 1)
           (Publication.__exit__ 0 None None None two_publications_state).2
           1
           (set_complete true (created_fields 5 None false))
           (set_complete true (created_fields 5 None false)));
    reflexivity.
Defined.

Lemma servable_only_by_exit_witness :
  exists self ty ev tb,
    Exit 0 None None None = Exit self ty ev tb /\ exc_truthy ev = false.
Proof.
  apply (servable_only_by_exit (Exit 0 None None None) two_publications_state 1
           (set_complete true (created_fields 5 None false)));
    vm_compute; reflexivity.
Defined.

(** ** The sequence of keys stays ahead *)

Lemma keys_below_supply_initial : keys_below_supply initial_state.
Proof.
  repeat split; simpl; intros k; try (rewrite lookup_empty; by intros [? ?]).
  intros o j. by rewrite lookup_nil.
Qed.

Lemma keys_heap_insert (h : list Publication) self o' n :
  (forall i o k, h !! i = Some o -> pk o = Some k -> k < n) ->
  (forall k, pk o' = Some k -> k < n) ->
  forall i o k, <[self := o']> h !! i = Some o -> pk o = Some k -> k < n.
Proof.
  intros Hh Ho' i o k [(-> & <- & _)|[_ Hi]]%list_lookup_insert_Some Hk.
  - by apply Ho'.
  - by eapply Hh.
Qed.

Lemma keys_deleted_db k st n h :
  keys_below_supply st -> pk_supply st <= n ->
  (forall i o j, h !! i = Some o -> pk o = Some j -> j < n) ->
  keys_below_supply (mkState (deleted_db k (db st)) n h).
Proof.
  intros (Hp & Ha & Hm & Hr & Ho & Hh) Hn Hh'.
  split; [|split; [|split; [|split; [|split; [|done]]]]]; simpl.
  - intros j [x [_ Hx]%lookup_delete_Some]. specialize (Hp j (ltac:(by eexists))). lia.
  - intros j [x [Hx _]%map_lookup_filter_Some].
    specialize (Ha j (ltac:(by eexists))). lia.
  - intros j [x [Hx _]%map_lookup_filter_Some].
    specialize (Hm j (ltac:(by eexists))). lia.
  - intros j [x [Hx _]%map_lookup_filter_Some].
    specialize (Hr j (ltac:(by eexists))). lia.
  - intros j r [Hx _]%map_lookup_filter_Some. specialize (Ho j r Hx). lia.
Qed.

Lemma keys_delete self st :
  keys_below_supply st -> keys_below_supply (Publication.delete self st).2.
Proof.
  intros Hst. destruct (heap st !! self) as [o|] eqn:Ho.
  - destruct (pk o) as [k|] eqn:Hk.
    + rewrite (delete_saved self o k st Ho Hk). simpl.
      apply keys_deleted_db; [done|done|].
      destruct Hst as (_ & _ & _ & _ & _ & Hh).
      by apply keys_heap_insert.
    + by rewrite (delete_unsaved self o).
  - by rewrite delete_no_object.
Qed.

Lemma keys_create st :
  keys_below_supply st ->
  publications (db st) !! pk_supply st = None /\
  created_resources (db st) !! S (pk_supply st) = None.
Proof.
  intros (Hp & _ & _ & Hr & _). split.
  - apply eq_None_not_Some. intros H%Hp. lia.
  - apply eq_None_not_Some. intros H%Hr. lia.
Qed.

Lemma keys_insert_publication st k f n h :
  keys_below_supply st -> pk_supply st <= n -> k < n ->
  (forall i o j, h !! i = Some o -> pk o = Some j -> j < n) ->
  keys_below_supply
    (mkState (set_publications (<[k := f]> (publications (db st))) (db st)) n h).
Proof.
  intros (Hp & Ha & Hm & Hr & Ho & Hh) Hn Hk Hh'.
  split; [|split; [|split; [|split; [|split; [|done]]]]]; simpl.
  - intros j [?|H%Hp]%lookup_insert_is_Some'; lia.
  - intros j H%Ha. lia.
  - intros j H%Hm. lia.
  - intros j H%Hr. lia.
  - intros j r H%Ho. lia.
Qed.

(** More keys handed out, nothing else changed. *)
Lemma keys_supply st n :
  keys_below_supply st -> pk_supply st <= n ->
  keys_below_supply (mkState (db st) n (heap st)).
Proof.
  intros (Hp & Ha & Hm & Hr & Ho & Hh) Hn.
  split; [|split; [|split; [|split; [|split]]]]; simpl.
  - intros j H%Hp. lia.
  - intros j H%Ha. lia.
  - intros j H%Hm. lia.
  - intros j H%Hr. lia.
  - intros j r H%Ho. lia.
  - intros i o k Hi Hk. specialize (Hh i o k Hi Hk). lia.
Qed.

Lemma keys_exit self ty ev tb st :
  keys_below_supply st ->
  keys_below_supply (Publication.__exit__ self ty ev tb st).2.
Proof.
  intros Hst. unfold Publication.__exit__. destruct (exc_truthy ev); simpl.
  - unfold mbind, M_bind, bind. pose proof (keys_delete self st Hst) as Hd.
    by destruct (Publication.delete self st) as [[[]|e] st'].
  - run. destruct (heap st !! self) as [o|] eqn:Ho; simpl; [|done].
    set (o' := mkPublication (pk o) (set_complete true (fields o))).
    set (st1 := set_heap (<[self := o']> (heap st)) st).
    assert (Ho' : heap st1 !! self = Some o') by by eapply heap_insert_lookup.
    pose proof Hst as (Hp & _ & _ & _ & _ & Hh).
    assert (Hh1 : forall i x k, heap st1 !! i = Some x -> pk x = Some k ->
                                k < pk_supply st).
    { apply keys_heap_insert; [done|]. intros k Hk. by eapply Hh. }
    destruct (pk o) as [k|] eqn:Hk.
    + rewrite (Model_save_update self o' k st1 Ho' eq_refl). simpl.
      apply (keys_insert_publication st); [done|done| |done].
      by eapply Hh.
    + rewrite (Model_save_insert self o' st1 Ho' eq_refl); cycle 1.
      { simpl. apply eq_None_not_Some. intros H%Hp. lia. }
      simpl. apply (keys_insert_publication st); [done|lia|lia|].
      apply keys_heap_insert.
      * intros i x j Hi Hj. specialize (Hh1 i x j Hi Hj). lia.
      * intros j [= <-]. lia.
Qed.

Lemma keys_perform c st :
  keys_below_supply st -> keys_below_supply (perform c st).
Proof.
  intros Hst. destruct c as [rv publ pt|self|self|self ty ev tb|a|m]; simpl.
  - destruct (keys_create st Hst) as [Hp Hr].
    rewrite (create_ok rv publ pt st Hp Hr). simpl.
    destruct Hst as (Hp' & Ha & Hm & Hr' & Ho & Hh).
    split; [|split; [|split; [|split; [|split]]]]; simpl.
    + intros j [?|H%Hp']%lookup_insert_is_Some'; lia.
    + intros j H%Ha. lia.
    + intros j H%Hm. lia.
    + intros j [?|H%Hr']%lookup_insert_is_Some'; lia.
    + intros j r [[_ <-]|[_ H%Ho]]%lookup_insert_Some; simpl; lia.
    + intros i o k [Hi|[_ Hi]]%lookup_app_Some Hk.
      * specialize (Hh i o k Hi Hk). lia.
      * apply list_lookup_singleton_Some in Hi as [_ <-].
        injection Hk as <-. lia.
  - by apply keys_delete.
  - done.
  - by apply keys_exit.
  - destruct (artifact_save_cases a st) as [(st' & Hs & Hd & Hh')|(_ & _ & _ & Hs)];
      rewrite Hs; simpl.
    + revert Hs. unfold PublishedArtifact.save. run.
      destruct (decide (map_Exists _ _)); [by intros [= <-]|].
      destruct (decide (is_Some (publications _ !! _))); [|by intros [= <-]].
      simpl. destruct (decide _); [|done]. intros [= <-].
      apply (keys_supply st); [done|lia].
    + destruct Hst as (Hp & Ha & Hm & Hr & Ho & Hh).
      split; [|split; [|split; [|split; [|split]]]]; simpl.
      * intros j H%Hp. lia.
      * intros j [?|H%Ha]%lookup_insert_is_Some'; lia.
      * intros j H%Hm. lia.
      * intros j H%Hr. lia.
      * intros j r H%Ho. lia.
      * intros i o k Hi Hk. specialize (Hh i o k Hi Hk). lia.
  - destruct (metadata_save_cases m st) as [(st' & Hs & Hd & Hh')|(_ & _ & _ & Hs)];
      rewrite Hs; simpl.
    + revert Hs. unfold PublishedMetadata.save. run.
      destruct (decide (map_Exists _ _)); [by intros [= <-]|].
      destruct (decide (is_Some (publications _ !! _))); [|by intros [= <-]].
      simpl. destruct (decide _); [|done]. intros [= <-].
      apply (keys_supply st); [done|lia].
    + destruct Hst as (Hp & Ha & Hm & Hr & Ho & Hh).
      split; [|split; [|split; [|split; [|split]]]]; simpl.
      * intros j H%Hp. lia.
      * intros j H%Ha. lia.
      * intros j [?|H%Hm]%lookup_insert_is_Some'; lia.
      * intros j H%Hr. lia.
      * intros j r H%Ho. lia.
      * intros i o k Hi Hk. specialize (Hh i o k Hi Hk). lia.
Qed.

Lemma references_hold_empty : references_hold empty_db.
Proof.
  split; [|split]; simpl; intros i x; try intros k; by rewrite lookup_empty.
Qed.

(** In a state reached from the empty database the keys are below the
    sequence and the foreign keys hold. *)
Lemma reachable_consistent cs :
  keys_below_supply (perform_all cs initial_state) /\
  references_hold (db (perform_all cs initial_state)).
Proof.
  induction cs as [|c cs [Hk Hr]] using rev_ind.
  - split; [apply keys_below_supply_initial|apply references_hold_empty].
  - rewrite perform_all_snoc. split; [by apply keys_perform|].
    eapply table_change_references; [apply perform_table_change|done].
Qed.

(** Where the keys are below the sequence and the foreign keys hold,
    nothing refers to the next key. *)
Lemma next_key_unreferenced st :
  keys_below_supply st -> references_hold (db st) ->
  unreferenced (pk_supply st) (db st).
Proof.
  intros (Hp & _ & _ & _ & Ho & _) (Ha & Hm & Hd).
  split; [split; [|split; [|split]]|].
  - apply eq_None_not_Some. intros H%Hp. lia.
  - intros i a Hi Heq. specialize (Hp _ (Ha i a Hi)). lia.
  - intros i m Hi Heq. specialize (Hp _ (Hm i m Hi)). lia.
  - intros i r Hi Heq. specialize (Ho i r Hi). lia.
  - intros i x Hi Heq. specialize (Hp _ (Hd i x _ Hi Heq)). lia.
Qed.

(** X12.  [create] never fails for want of a key.  In every state
    reached from the empty database by calls of [create], [delete],
    [__enter__], [__exit__] and saves of published files, in any order
    and whether they returned or raised, [Publication.create] returns: it
    inserts the row of a new, incomplete publication and its provenance
    entry under two keys that were free, and hands back a new instance
    saved under the first; and nothing in the tables referred to the key
    of the new publication. *)
Theorem create_returns_in_every_reachable_state cs rv publisher pt :
  exists mgr st',
    Publication.create rv publisher pt (perform_all cs initial_state) =
      (Ok mgr, st') /\
    db st' = created_db rv publisher pt (perform_all cs initial_state) /\
    unreferenced (pk_supply (perform_all cs initial_state))
      (db (perform_all cs initial_state)) /\
    created_resources (db (perform_all cs initial_state))
      !! S (pk_supply (perform_all cs initial_state)) = None /\
    heap (perform_all cs initial_state) !! mgr = None /\
    heap st' !! mgr =
      Some (mkPublication (Some (pk_supply (perform_all cs initial_state)))
              (created_fields rv publisher pt)).
Proof.
  destruct (reachable_consistent cs) as [Hk Href].
  destruct (keys_create _ Hk) as [Hp Hr].
  rewrite (create_ok rv publisher pt _ Hp Hr).
  eexists _, _. split; [done|]. split; [done|].
  split; [by apply next_key_unreferenced|]. split; [done|].
  simpl. split; [|apply lookup_snoc_new].
  apply lookup_ge_None. lia.
Qed.

(** * Tasks *)

Module TaskingFacts.
Import Tasking.

(** ** Sorted queues *)




(** ** One pass of the scheduler over the queue *)


Section scan.
Variable reqs_of : ID -> list (string * mode).







End scan.


(** ** Lookups after a pass *)







(** ** The invariant is kept *)



















(** ** What a request does to a task record *)




Lemma dispatch_created sys : created (dispatch sys) = created sys.
Proof. unfold dispatch. by destruct (scan _ _ _ _) as [[started rest] hs']. Qed.


















(** ** What a sync observes *)

Section observation.
Variables (k : string) (v sA sB : nat).
Hypothesis HAB : sA < sB.




End observation.

(** ** Ordering of tasks that reserve the same resource *)





(** ** Deleting a task *)

(** C7.  [delete] on a recorded task: in state running or canceling it
    is refused with [Conflict] and the system, the task record included,
    stays as it is; in state waiting or in a terminal state it succeeds,
    the record is gone, the CreatedResource entries of the task are gone
    and those of other tasks stay, as do the records of other tasks. *)
Theorem delete_refused_while_executing sys id t :
  tasks sys !! id = Some t ->
  (state t = running \/ state t = canceling ->
     delete id sys = Rejected Conflict /\
     step (Delete id) sys = sys /\
     tasks (step (Delete id) sys) !! id = Some t) /\
  (state t = waiting \/ terminal (state t) = true ->
     exists sys',
       delete id sys = Done sys' /\
       tasks sys' !! id = None /\
       (forall c, c ∈ created sys' <-> c ∈ created sys /\ c.1 <> id) /\
       (forall j, j <> id -> tasks sys' !! j = tasks sys !! j)).
Proof.
  intros Ht. split.
  - intros Hst.
    assert (Hact : active (state t) = true) by (destruct Hst as [-> | ->]; done).
    assert (Hdel : delete id sys = Rejected Conflict).
    { unfold delete. by rewrite Ht, Hact. }
    split; [done|]. unfold step. simpl. by rewrite Hdel.
  - intros Hst.
    assert (Hact : active (state t) = false).
    { destruct Hst as [-> |Hterm]; [done|]. by destruct (state t). }
    eexists. split.
    { unfold delete. by rewrite Ht, Hact. }
    simpl. split; [apply lookup_delete_eq|]. split.
    + intros c. rewrite list_elem_of_filter. tauto.
    + intros j Hj. by apply lookup_delete_ne.
Qed.

Lemma delete_refused_while_executing_witness :
  ((state long_sync = running \/ state long_sync = canceling ->
      delete 1 long_task_running = Rejected Conflict /\
      step (Delete 1) long_task_running = long_task_running /\
      tasks (step (Delete 1) long_task_running) !! 1 = Some long_sync) /\
   (state long_sync = waiting \/ terminal (state long_sync) = true ->
      exists sys',
        delete 1 long_task_running = Done sys' /\
        tasks sys' !! 1 = None /\
        (forall c, c ∈ created sys' <-> c ∈ created long_task_running /\ c.1 <> 1) /\
        (forall j, j <> 1 -> tasks sys' !! j = tasks long_task_running !! j))) /\
  ((state long_sync_done = running \/ state long_sync_done = canceling ->
      delete 1 long_task_done = Rejected Conflict /\
      step (Delete 1) long_task_done = long_task_done /\
      tasks (step (Delete 1) long_task_done) !! 1 = Some long_sync_done) /\
   (state long_sync_done = waiting \/ terminal (state long_sync_done) = true ->
      exists sys',
        delete 1 long_task_done = Done sys' /\
        tasks sys' !! 1 = None /\
        (forall c, c ∈ created sys' <-> c ∈ created long_task_done /\ c.1 <> 1) /\
        (forall j, j <> 1 -> tasks sys' !! j = tasks long_task_done !! j))).
Proof.
  split.
  - apply (delete_refused_while_executing long_task_running 1 long_sync).
    reflexivity.
  - apply (delete_refused_while_executing long_task_done 1 long_sync_done).
    reflexivity.
Defined.

(** The entry the finished task had registered is there before the
    deletion and gone after it. *)
Lemma delete_removes_created_example :
  created long_task_done = [(1, 10)] /\
  created (step (Delete 1) long_task_done) = [] /\
  tasks (step (Delete 1) long_task_done) !! 1 = None.
Proof. by vm_compute. Qed.

(** ** Cancelling a running task *)



(** On the run of the cancellation test: the long sync is running, the
    request to cancel it is answered with the task canceled and without
    [finished_at], and a report of its worker that comes later is refused
    and changes nothing. *)
Lemma cancel_running_task_example :
  tasks long_task_running !! 1 = Some long_sync /\
  state long_sync = running /\
  request_cancel 1 long_task_running = Done long_task_canceled /\
  tasks long_task_canceled !! 1 = Some long_sync_canceled /\
  state long_sync_canceled = canceled /\
  finished_at long_sync_canceled = None /\
  finish 1 long_task_canceled = Rejected Conflict /\
  tasks (run [Finish 1; Dispatch] long_task_canceled) !! 1 = Some long_sync_canceled.
Proof. by vm_compute. Qed.

End TaskingFacts.

(** * OpenAPI schema generation: properties *)

(** ** Characters and case *)

Lemma lower_char_not_upper c : Str.is_upper (Str.lower_char c) = false.
Proof. by destruct c as [[] [] [] [] [] [] [] []]. Qed.

Lemma lower_char_id c : Str.is_upper c = false -> Str.lower_char c = c.
Proof. unfold Str.lower_char. by intros ->. Qed.

Lemma upper_lower_char c :
  Str.is_upper c = true -> Str.upper_char (Str.lower_char c) = c.
Proof. by destruct c as [[] [] [] [] [] [] [] []]. Qed.

Lemma lower_no_capitals s : Forall (fun c => Str.is_upper c = false) (Str.lower s).
Proof.
  unfold Str.lower. apply Forall_fmap, Forall_forall. intros c _. simpl.
  apply lower_char_not_upper.
Qed.

Lemma lower_id s :
  Forall (fun c => Str.is_upper c = false) s -> Str.lower s = s.
Proof.
  unfold Str.lower. induction 1 as [|c s Hc _ IH]; [done|].
  rewrite fmap_cons, IH. by rewrite lower_char_id.
Qed.

(** ** [join] *)

Lemma join_cons sep x y l :
  Str.join sep (x :: y :: l) = x ++ sep ++ Str.join sep (y :: l).
Proof. done. Qed.

Lemma join_Forall (P : ascii -> Prop) sep l :
  Forall P sep -> Forall (Forall P) l -> Forall P (Str.join sep l).
Proof.
  intros Hsep. induction 1 as [|x l Hx Hl IH]; [done|].
  destruct l as [|y l]; [done|]. rewrite join_cons.
  apply Forall_app. split; [done|]. apply Forall_app. by split.
Qed.

(** ** The capital words of a name *)

Lemma non_capitals_no_capitals s :
  Forall (fun c => Str.is_upper c = false) (Str.non_capitals s).
Proof.
  induction s as [|c s IH]; simpl; [done|].
  destruct (Str.is_upper c) eqn:Hc; [done|]. by constructor.
Qed.

Lemma findall_skips pre s :
  Forall (fun c => Str.is_upper c = false) pre ->
  Str.findall_capital_words (pre ++ s) = Str.findall_capital_words s.
Proof. induction 1 as [|c pre Hc _ IH]; simpl; [done|]. by rewrite Hc. Qed.

Lemma findall_tiles s :
  Str.non_capitals s ++ concat (Str.findall_capital_words s) = s.
Proof.
  induction s as [|c s IH]; simpl; [done|].
  destruct (Str.is_upper c); simpl; by rewrite IH.
Qed.

Lemma findall_words s :
  Forall (fun w => exists c r, w = c :: r /\ Str.is_upper c = true /\
                     Forall (fun x => Str.is_upper x = false) r)
    (Str.findall_capital_words s).
Proof.
  induction s as [|c s IH]; simpl; [done|].
  destruct (Str.is_upper c) eqn:Hc; [|done].
  constructor; [|done]. exists c, (Str.non_capitals s).
  split; [done|]. split; [done|]. apply non_capitals_no_capitals.
Qed.

Lemma findall_length s :
  length (Str.findall_capital_words s) =
  length (filter (fun c => Str.is_upper c = true) s).
Proof.
  induction s as [|c s IH]; simpl; [done|].
  rewrite filter_cons. destruct (Str.is_upper c) eqn:Hc.
  - rewrite decide_True by done. simpl. by rewrite IH.
  - rewrite decide_False by done. done.
Qed.

(** X15.  The regular expression of the two naming functions cuts a name
    at its capital letters and loses nothing after the first one: the
    words it finds, put end to end after the characters that stand before
    the first capital letter, give back the name; every word begins with
    a capital letter and holds no other; and there are as many words as
    the name has capital letters. *)
Theorem capital_words_tile_the_name (s : list ascii) :
  Str.non_capitals s ++ concat (Str.findall_capital_words s) = s /\
  Forall (fun w => exists c r, w = c :: r /\ Str.is_upper c = true /\
                     Forall (fun x => Str.is_upper x = false) r)
    (Str.findall_capital_words s) /\
  length (Str.findall_capital_words s) =
    length (filter (fun c => Str.is_upper c = true) s).
Proof.
  split; [apply findall_tiles|]. split; [apply findall_words|apply findall_length].
Qed.

(** ** Path parameter names *)

Lemma stem_no_capitals s :
  Forall (fun c => Str.is_upper c = false)
    (Str.join "_" (Str.lower <$> Str.findall_capital_words s)).
Proof.
  apply join_Forall.
  - repeat constructor.
  - apply Forall_fmap, Forall_forall. intros w _. apply lower_no_capitals.
Qed.

(** X16.  The names made from a model are in lower case: neither the
    slug [..._href] without prefix nor the primary key name [..._pk]
    holds a capital letter, whatever the name of the model; a prefix is
    put in front as it is, followed by an underscore. *)
Theorem parameter_names_are_lower_case (m : Model) :
  Forall (fun c => Str.is_upper c = false)
    (PulpSchemaGenerator.get_parameter_slug_from_model m None) /\
  Forall (fun c => Str.is_upper c = false)
    (PulpSchemaGenerator.get_pk_path_param_name_from_model m) /\
  (forall c p,
     PulpSchemaGenerator.get_parameter_slug_from_model m (Some (c :: p)) =
     (c :: p) ++ "_" ++ PulpSchemaGenerator.get_parameter_slug_from_model m None) /\
  PulpSchemaGenerator.get_parameter_slug_from_model m (Some []) =
    PulpSchemaGenerator.get_parameter_slug_from_model m None.
Proof.
  unfold PulpSchemaGenerator.get_parameter_slug_from_model,
    PulpSchemaGenerator.get_pk_path_param_name_from_model.
  split; [|split; [|done]].
  - apply Forall_app. split; [apply stem_no_capitals|repeat constructor].
  - apply Forall_app. split; [apply stem_no_capitals|repeat constructor].
Qed.

(** X17.  What stands before the first capital letter of a model's name
    does not reach the parameter names: a name and the same name with
    characters other than capital letters put in front give the same slug
    and the same primary key name, and a name without any capital letter
    gives the bare suffixes [_href] and [_pk]. *)
Theorem parameter_names_drop_leading_lower_case (pre s : list ascii) b prefix :
  Forall (fun c => Str.is_upper c = false) pre ->
  PulpSchemaGenerator.get_parameter_slug_from_model (mkModel (pre ++ s) b) prefix =
    PulpSchemaGenerator.get_parameter_slug_from_model (mkModel s b) prefix /\
  PulpSchemaGenerator.get_pk_path_param_name_from_model (mkModel (pre ++ s) b) =
    PulpSchemaGenerator.get_pk_path_param_name_from_model (mkModel s b) /\
  PulpSchemaGenerator.get_parameter_slug_from_model (mkModel pre b) None =
    ("_href" : list ascii) /\
  PulpSchemaGenerator.get_pk_path_param_name_from_model (mkModel pre b) =
    ("_pk" : list ascii).
Proof.
  intros Hpre.
  unfold PulpSchemaGenerator.get_parameter_slug_from_model,
    PulpSchemaGenerator.get_pk_path_param_name_from_model. simpl.
  rewrite (findall_skips pre s Hpre).
  pose proof (findall_skips pre [] Hpre) as Hnil. rewrite app_nil_r in Hnil.
  rewrite Hnil. done.
Qed.

Lemma parameter_names_drop_leading_lower_case_witness :
  PulpSchemaGenerator.get_parameter_slug_from_model
    (mkModel (("file" : list ascii) ++ ("Remote" : list ascii)) false) None =
    PulpSchemaGenerator.get_parameter_slug_from_model (mkModel "Remote" false) None /\
  PulpSchemaGenerator.get_pk_path_param_name_from_model
    (mkModel (("file" : list ascii) ++ ("Remote" : list ascii)) false) =
    PulpSchemaGenerator.get_pk_path_param_name_from_model (mkModel "Remote" false) /\
  PulpSchemaGenerator.get_parameter_slug_from_model (mkModel "file" false) None =
    ("_href" : list ascii) /\
  PulpSchemaGenerator.get_pk_path_param_name_from_model (mkModel "file" false) =
    ("_pk" : list ascii).
Proof.
  apply (parameter_names_drop_leading_lower_case "file" "Remote" false None).
  apply (bool_decide_unpack _). vm_compute. exact I.
Defined.

(** ** Distinct models, distinct names *)

Lemma lower_char_underscore c : Str.lower_char c = "_"%char -> c = "_"%char.
Proof. destruct c as [[] [] [] [] [] [] [] []]; by intros [=]. Qed.

(** A string free of [sep], followed by nothing or by [sep], is
    determined by the whole. *)
Lemma app_sep_inj (sep : ascii) (x y r1 r2 : list ascii) :
  sep ∉ x -> sep ∉ y ->
  (r1 = [] \/ exists t, r1 = sep :: t) ->
  (r2 = [] \/ exists t, r2 = sep :: t) ->
  x ++ r1 = y ++ r2 -> x = y /\ r1 = r2.
Proof.
  revert y. induction x as [|a x IH]; intros [|b y] Hx Hy H1 H2; simpl.
  - done.
  - intros ->. destruct H1 as [[=]|[t [= -> _]]]. exfalso. apply Hy. by left.
  - intros <-. destruct H2 as [[=]|[t [= -> _]]]. exfalso. apply Hx. by left.
  - intros [= -> Heq]. destruct (IH y) as [-> ->]; try done.
    + intros ?. apply Hx. by right.
    + intros ?. apply Hy. by right.
Qed.

Lemma join_sep_free_inj (sep : ascii) (l1 l2 : list (list ascii)) :
  Forall (fun w => w <> [] /\ sep ∉ w) l1 ->
  Forall (fun w => w <> [] /\ sep ∉ w) l2 ->
  Str.join [sep] l1 = Str.join [sep] l2 -> l1 = l2.
Proof.
  intros H1. revert l2. induction H1 as [|x l1 [Hx Hsx] Hl1 IH]; intros l2 H2.
  - destruct H2 as [|y l2 [Hy _] _]; [done|]. simpl.
    destruct l2; destruct y; simpl; done.
  - destruct H2 as [|y l2 [Hy Hsy] Hl2].
    { simpl. destruct l1; destruct x; simpl; done. }
    intros Heq.
    assert (Hshape : forall z (l : list (list ascii)),
      Str.join [sep] (z :: l) =
      z ++ match l with [] => [] | _ :: _ => sep :: Str.join [sep] l end).
    { intros z [|? ?]; simpl; [by rewrite app_nil_r|done]. }
    rewrite !Hshape in Heq.
    apply (app_sep_inj sep) in Heq as [-> Hrest]; try done.
    + f_equal. destruct l1 as [|a l1], l2 as [|b l2]; try done.
      injection Hrest as Hrest. by apply IH.
    + destruct l1; [by left|right; by eexists].
    + destruct l2; [by left|right; by eexists].
Qed.

Lemma lower_word_inj (w1 w2 : list ascii) :
  (exists c r, w1 = c :: r /\ Str.is_upper c = true /\
     Forall (fun x => Str.is_upper x = false) r) ->
  (exists c r, w2 = c :: r /\ Str.is_upper c = true /\
     Forall (fun x => Str.is_upper x = false) r) ->
  Str.lower w1 = Str.lower w2 -> w1 = w2.
Proof.
  intros (c1 & r1 & -> & Hc1 & Hr1) (c2 & r2 & -> & Hc2 & Hr2).
  change (Str.lower (?c :: ?r)) with (Str.lower_char c :: Str.lower r).
  rewrite !lower_id by done. intros [= Hc ->]. f_equal.
  rewrite <- (upper_lower_char c1 Hc1), <- (upper_lower_char c2 Hc2).
  by rewrite Hc.
Qed.

Lemma lower_words_inj (l1 l2 : list (list ascii)) :
  Forall (fun w => exists c r, w = c :: r /\ Str.is_upper c = true /\
                     Forall (fun x => Str.is_upper x = false) r) l1 ->
  Forall (fun w => exists c r, w = c :: r /\ Str.is_upper c = true /\
                     Forall (fun x => Str.is_upper x = false) r) l2 ->
  Str.lower <$> l1 = Str.lower <$> l2 -> l1 = l2.
Proof.
  intros H1. revert l2. induction H1 as [|w1 l1 Hw1 _ IH]; intros l2 H2.
  - by destruct l2.
  - destruct H2 as [|w2 l2 Hw2 Hl2]; [done|]. rewrite !fmap_cons.
    intros [= Hw Hl]. f_equal; [by apply lower_word_inj|by apply IH].
Qed.

Lemma elem_of_concat (x : ascii) (w : list ascii) (l : list (list ascii)) :
  w ∈ l -> x ∈ w -> x ∈ concat l.
Proof.
  induction 1 as [w l|w v l _ IH]; simpl; intros Hx; apply elem_of_app; auto.
Qed.

(** The lowered words of a name without underscore: none is empty, none
    holds an underscore. *)
Lemma lowered_words_sep_free s :
  "_"%char ∉ s ->
  Forall (fun w => w <> [] /\ "_"%char ∉ w)
    (Str.lower <$> Str.findall_capital_words s).
Proof.
  intros Hs. apply Forall_fmap, Forall_forall. intros w Hw. simpl.
  pose proof (findall_words s) as Hws.
  rewrite Forall_forall in Hws. destruct (Hws w Hw) as (c & r & -> & _ & _).
  split; [done|]. unfold Str.lower. intros (x & Hx & Hin)%list_elem_of_fmap.
  symmetry in Hx. apply lower_char_underscore in Hx as ->.
  apply Hs. rewrite <- (findall_tiles s). apply elem_of_app. right.
  by apply (elem_of_concat _ (c :: r)).
Qed.

(** X18.  Distinct models get distinct parameter names: two names in
    ASCII that begin with a capital letter and hold no underscore, and
    that give the same slug under one prefix, are the same name. *)
Theorem slug_determines_the_name (c1 c2 : ascii) (s1 s2 : list ascii) b1 b2 prefix :
  Str.isascii (c1 :: s1) = true -> Str.isascii (c2 :: s2) = true ->
  Str.is_upper c1 = true -> Str.is_upper c2 = true ->
  "_"%char ∉ c1 :: s1 -> "_"%char ∉ c2 :: s2 ->
  PulpSchemaGenerator.get_parameter_slug_from_model (mkModel (c1 :: s1) b1) prefix =
  PulpSchemaGenerator.get_parameter_slug_from_model (mkModel (c2 :: s2) b2) prefix ->
  c1 :: s1 = c2 :: s2.
Proof.
  intros _ _ Hc1 Hc2 Hs1 Hs2 Heq.
  assert (Hstem :
    Str.join "_" (Str.lower <$> Str.findall_capital_words (c1 :: s1)) =
    Str.join "_" (Str.lower <$> Str.findall_capital_words (c2 :: s2))).
  { revert Heq. unfold PulpSchemaGenerator.get_parameter_slug_from_model.
    cbn [__name__]. destruct prefix as [[|c p]|].
    - apply app_inv_tail.
    - intros H. apply (app_inv_head (c :: p)) in H. apply app_inv_head in H.
      by apply app_inv_tail in H.
    - apply app_inv_tail. }
  apply (join_sep_free_inj "_") in Hstem; [|by apply lowered_words_sep_free..].
  apply lower_words_inj in Hstem; [|apply findall_words..].
  rewrite <- (findall_tiles (c1 :: s1)), <- (findall_tiles (c2 :: s2)).
  rewrite Hstem. simpl. by rewrite Hc1, Hc2.
Qed.

Lemma slug_determines_the_name_witness :
  ("FileRemote" : list ascii) = ("FileRemote" : list ascii).
Proof.
  apply (slug_determines_the_name "F" "F" "ileRemote" "ileRemote" false true
           (Some ("file" : list ascii)));
    try reflexivity; apply (bool_decide_unpack _); vm_compute; exact I.
Defined.

(** Without the condition on underscores the names may collide. *)
Example slug_collision :
  PulpSchemaGenerator.get_parameter_slug_from_model (mkModel "AB" false) None =
  PulpSchemaGenerator.get_parameter_slug_from_model (mkModel "A_b" false) None.
Proof. vm_compute. reflexivity. Qed.

(** ** Searching and replacing *)

Lemma startswith_app p s : Str.startswith p (p ++ s) = true.
Proof.
  induction p as [|a p IH]; simpl; [done|].
  by rewrite bool_decide_eq_true_2, IH.
Qed.

Lemma startswith_true p s : Str.startswith p s = true -> exists r, s = p ++ r.
Proof.
  revert s. induction p as [|a p IH]; intros s; simpl; [by exists s|].
  destruct s as [|b s]; [done|].
  intros [->%bool_decide_eq_true [r ->]%IH]%andb_true_iff. by exists r.
Qed.

Lemma contains_true sub s :
  Str.contains sub s = true -> exists a b, s = a ++ sub ++ b.
Proof.
  induction s as [|c s IH]; simpl.
  - rewrite orb_false_r. intros [r ->]%startswith_true. by exists [], r.
  - intros [[r ->]%startswith_true|(a & b & ->)%IH]%orb_true_iff.
    + by exists [], r.
    + by exists (c :: a), b.
Qed.

Lemma contains_false_elem c sub s :
  c ∈ sub -> c ∉ s -> Str.contains sub s = false.
Proof.
  intros Hsub Hs. destruct (Str.contains sub s) eqn:Hc; [|done].
  apply contains_true in Hc as (a & b & ->). exfalso. apply Hs.
  rewrite !elem_of_app. auto.
Qed.

Lemma contains_tail sub c s :
  Str.contains sub (c :: s) = false -> Str.contains sub s = false.
Proof. simpl. by intros [_ ?]%orb_false_iff. Qed.

Lemma replace_go_skip old new pre s :
  Str.replace_go old new (length pre) (pre ++ s) = Str.replace_go old new 0 s.
Proof.
  induction pre as [|c pre IH]; [done|]. simpl. exact IH.
Qed.

Lemma replace_go_absent old new s :
  Str.contains old s = false -> Str.replace_go old new 0 s = s.
Proof.
  induction s as [|c s IH]; [done|]. intros Hc.
  pose proof (contains_tail _ _ _ Hc) as Hs. simpl in Hc.
  apply orb_false_iff in Hc as [Hc _].
  change (Str.replace_go old new 0 (c :: s)) with
    (if Str.startswith old (c :: s)
     then new ++ Str.replace_go old new (length old - 1) s
     else c :: Str.replace_go old new 0 s).
  rewrite Hc. by rewrite IH.
Qed.

(** An occurrence at the start is replaced, and the search goes on
    behind it. *)
Lemma replace_prefix c old new s :
  Str.replace (c :: old) new ((c :: old) ++ s) =
  new ++ Str.replace (c :: old) new s.
Proof.
  unfold Str.replace.
  change (Str.replace_go (c :: old) new 0 ((c :: old) ++ s)) with
    (if Str.startswith (c :: old) ((c :: old) ++ s)
     then new ++ Str.replace_go (c :: old) new (length (c :: old) - 1) (old ++ s)
     else c :: Str.replace_go (c :: old) new 0 (old ++ s)).
  rewrite startswith_app. f_equal.
  replace (length (c :: old) - 1) with (length old) by (simpl; lia).
  apply replace_go_skip.
Qed.

Lemma replace_absent old new s :
  Str.contains old s = false -> Str.replace old new s = s.
Proof.
  intros Hc. unfold Str.replace. destruct old as [|c old].
  - by destruct s.
  - by apply replace_go_absent.
Qed.

(** ** The last occurrence of a character *)

Lemma before_last_absent sep s : sep ∉ s -> Str.before_last sep s = None.
Proof.
  induction s as [|c s IH]; [done|]. intros Hs. simpl.
  rewrite IH by (intros ?; apply Hs; by right).
  rewrite decide_False; [done|]. intros ->. apply Hs. by left.
Qed.

Lemma before_last_app sep pre rest :
  sep ∉ rest -> Str.before_last sep (pre ++ sep :: rest) = Some pre.
Proof.
  intros Hr. induction pre as [|c pre IH]; simpl.
  - rewrite before_last_absent by done. by rewrite decide_True.
  - by rewrite IH.
Qed.

Lemma before_last_None sep s : Str.before_last sep s = None -> sep ∉ s.
Proof.
  induction s as [|c s IH]; simpl; [intros _ H; by inversion H|].
  destruct (Str.before_last sep s); [done|].
  destruct (decide (c = sep)); [done|]. intros _.
  intros [->|?]%elem_of_cons; [done|]. by apply IH.
Qed.

Lemma before_last_Some sep s h :
  Str.before_last sep s = Some h -> exists t, s = h ++ sep :: t /\ sep ∉ t.
Proof.
  revert h. induction s as [|c s IH]; intros h; simpl; [done|].
  destruct (Str.before_last sep s) as [p|] eqn:Hp.
  - intros [= <-]. destruct (IH p eq_refl) as (t & -> & Ht). by exists t.
  - destruct (decide (c = sep)) as [->|]; [|done]. intros [= <-].
    exists s. split; [done|]. by apply before_last_None.
Qed.

Lemma rsplit_head_absent sep s : sep ∉ s -> Str.rsplit_head sep s = s.
Proof. intros Hs. unfold Str.rsplit_head. by rewrite before_last_absent. Qed.

Lemma rsplit_head_app sep pre rest :
  sep ∉ rest -> Str.rsplit_head sep (pre ++ sep :: rest) = pre.
Proof. intros Hr. unfold Str.rsplit_head. by rewrite before_last_app. Qed.

(** Nothing that ends in [sep] goes beyond the last [sep]. *)
Lemma last_sep_bound (sep : ascii) (x y h t : list ascii) :
  x ++ sep :: y = h ++ sep :: t -> sep ∉ t -> exists k, h = x ++ k.
Proof.
  intros [(k & -> & Hk)|(k & -> & _)]%app_eq_inv Ht; [|by exists k].
  destruct k as [|c k]; [exists []; by rewrite !app_nil_r|].
  injection Hk as -> ->. exfalso. apply Ht. apply elem_of_app. right. by left.
Qed.

(** ** [convert_endpoint_path_params] *)

(** The last two statements of the method (lines 134-135), on a path
    whose last closing brace is followed by a slash. *)
Lemma replace_resource_path (pre rest new : list ascii) :
  "}"%char ∉ rest ->
  Str.replace (Str.rsplit_head "}" (pre ++ "}/" ++ rest) ++ "}/") new
    (pre ++ "}/" ++ rest) = new ++ rest.
Proof.
  intros Hr.
  change (pre ++ "}/" ++ rest) with (pre ++ "}"%char :: ("/"%char :: rest)).
  rewrite rsplit_head_app by (intros [[=]|?]%elem_of_cons; done).
  replace (pre ++ "}"%char :: "/"%char :: rest) with ((pre ++ "}/") ++ rest)
    by by rewrite <- app_assoc.
  destruct (pre ++ "}/") as [|c old] eqn:Hold; [by destruct pre|].
  rewrite replace_prefix. f_equal. apply replace_absent.
  apply (contains_false_elem "}"); [|done].
  rewrite <- Hold. apply elem_of_app. right. by left.
Qed.

(** On any other path they change nothing. *)
Lemma replace_resource_path_absent (path new : list ascii) :
  (forall pre rest, "}"%char ∉ rest -> path <> pre ++ "}/" ++ rest) ->
  Str.replace (Str.rsplit_head "}" path ++ "}/") new path = path.
Proof.
  intros Hshape. apply replace_absent.
  destruct (Str.contains _ path) eqn:Hc; [|done]. exfalso.
  apply contains_true in Hc as (a & b & Hpath).
  unfold Str.rsplit_head in Hpath.
  destruct (Str.before_last "}" path) as [h|] eqn:Hh; simpl in Hpath.
  - pose proof (before_last_Some _ _ _ Hh) as Hdec.
    destruct Hdec as (t & Ht & Hnt).
    assert (Heq : (a ++ h) ++ "}"%char :: ("/"%char :: b) = h ++ "}"%char :: t).
    { rewrite <- Ht, Hpath at 1. by rewrite <- !app_assoc. }
    pose proof Heq as Hk. apply last_sep_bound in Hk as [k Hk]; [|done].
    assert (a = []) as ->.
    { apply (f_equal length) in Hk. rewrite !length_app in Hk.
      destruct a; [done|simpl in Hk; lia]. }
    simpl in Heq. apply app_inv_head in Heq. injection Heq as <-.
    apply (Hshape h b).
    + intros ?. apply Hnt. by right.
    + by rewrite Ht.
  - apply (f_equal length) in Hpath. rewrite !length_app in Hpath.
    simpl in Hpath. lia.
Qed.

(** X19.  A nested endpoint collapses to one parameter.  For a view with
    a model, a path whose last closing brace is followed by a slash is
    rewritten to the slug of the model in braces followed by what stood
    behind that slash: everything up to and including the last [}/], all
    earlier parameters with it, is replaced.  The model is that of the
    queryset, or the [model] attribute of a view without queryset; the
    slug carries the endpoint name of the parent viewset as prefix
    exactly for a model that is a [RepositoryVersion]. *)
Theorem nested_path_collapses (pre rest : list ascii) view m prefix :
  queryset view = Some (Some m) \/
  ((queryset view = None \/ queryset view = Some None) /\
   model view = Some (Some m)) ->
  (if is_repository_version m
   then exists parent,
          parent_viewset view = Some parent /\ prefix = Some (endpoint_name parent)
   else prefix = None) ->
  "}"%char ∉ rest ->
  PulpSchemaGenerator.convert_endpoint_path_params (pre ++ "}/" ++ rest) view =
  Ok ("{" ++ PulpSchemaGenerator.get_parameter_slug_from_model m prefix ++ "}"
        ++ rest).
Proof.
  intros Hm Hprefix Hrest.
  assert (Hgoal :
    (if is_repository_version m then
       match parent_viewset view with
       | Some parent =>
           Ok (Str.replace (Str.rsplit_head "}" (pre ++ "}/" ++ rest) ++ "}/")
                 ("{" ++ PulpSchemaGenerator.get_parameter_slug_from_model m
                           (Some (endpoint_name parent)) ++ "}")
                 (pre ++ "}/" ++ rest))
       | None => Raise AttributeError
       end
     else
       Ok (Str.replace (Str.rsplit_head "}" (pre ++ "}/" ++ rest) ++ "}/")
             ("{" ++ PulpSchemaGenerator.get_parameter_slug_from_model m None ++ "}")
             (pre ++ "}/" ++ rest))) =
    Ok ("{" ++ PulpSchemaGenerator.get_parameter_slug_from_model m prefix ++ "}"
          ++ rest)).
  { destruct (is_repository_version m).
    - destruct Hprefix as (parent & -> & ->).
      rewrite replace_resource_path by done. by rewrite <- !app_assoc.
    - subst prefix. rewrite replace_resource_path by done.
      by rewrite <- !app_assoc. }
  unfold PulpSchemaGenerator.convert_endpoint_path_params.
  destruct Hm as [->|[[-> | ->] ->]]; exact Hgoal.
Qed.

Lemma nested_path_collapses_witness :
  PulpSchemaGenerator.convert_endpoint_path_params
    (("/pulp/api/v3/repositories/file/file/{repository_pk}/versions/{number" : list ascii)
       ++ "}/" ++ ("repair/" : list ascii))
    versions_view =
  Ok ("{" ++ PulpSchemaGenerator.get_parameter_slug_from_model FileRepositoryVersion
               (Some ("file_file" : list ascii)) ++ "}" ++ ("repair/" : list ascii)).
Proof.
  apply (nested_path_collapses _ "repair/" versions_view FileRepositoryVersion
           (Some ("file_file" : list ascii))).
  - left. reflexivity.
  - simpl. exists file_repository_viewset. split; reflexivity.
  - apply (bool_decide_unpack _). vm_compute. exact I.
Defined.

(** X20.  Any other path is left as it is: a path without a closing
    brace, or whose last closing brace is not followed by a slash, comes
    back unchanged whenever the method returns, whatever the view. *)
Theorem other_paths_are_unchanged (path : list ascii) view r :
  ("}"%char ∉ path) \/
  (exists pre rest, path = pre ++ "}"%char :: rest /\ ("}"%char ∉ rest) /\
                    head rest <> Some "/"%char) ->
  PulpSchemaGenerator.convert_endpoint_path_params path view = Ok r ->
  r = path.
Proof.
  intros Hpath.
  assert (Hshape :
    forall pre rest, "}"%char ∉ rest -> path <> pre ++ "}/" ++ rest).
  { intros pre rest Hrest Heq. destruct Hpath as [Hno|(p & t & Hp & Ht & Hhd)].
    - apply Hno. rewrite Heq. apply elem_of_app. right. by left.
    - rewrite Heq in Hp.
      change (pre ++ "}/" ++ rest) with (pre ++ "}"%char :: ("/"%char :: rest)) in Hp.
      pose proof Hp as Hk. apply last_sep_bound in Hk as [k Hk]; [|done].
      symmetry in Hp. pose proof Hp as Hk'.
      apply last_sep_bound in Hk' as [k' Hk'];
        [|intros [[=]|?]%elem_of_cons; done].
      assert (k = []) as ->.
      { rewrite Hk in Hk'. apply (f_equal length) in Hk'.
        rewrite !length_app in Hk'. destruct k; [done|simpl in Hk'; lia]. }
      rewrite app_nil_r in Hk. subst p. apply app_inv_head in Hp.
      injection Hp as ->. by apply Hhd. }
  assert (Hrep : forall new,
    Str.replace (Str.rsplit_head "}" path ++ "}/") new path = path).
  { intros new. by apply replace_resource_path_absent. }
  unfold PulpSchemaGenerator.convert_endpoint_path_params.
  destruct (queryset view) as [[q|]|]; [| |].
  - destruct (is_repository_version q); [destruct (parent_viewset view)|];
      rewrite ?Hrep; by intros [=].
  - destruct (model view) as [[rm|]|]; [|by intros [=]..].
    destruct (is_repository_version rm); [destruct (parent_viewset view)|];
      rewrite ?Hrep; by intros [=].
  - destruct (model view) as [[rm|]|]; [|by intros [=]..].
    destruct (is_repository_version rm); [destruct (parent_viewset view)|];
      rewrite ?Hrep; by intros [=].
Qed.

Lemma other_paths_are_unchanged_witness :
  ("/pulp/api/v3/remotes/file/file/" : list ascii) =
  ("/pulp/api/v3/remotes/file/file/" : list ascii).
Proof.
  apply (other_paths_are_unchanged "/pulp/api/v3/remotes/file/file/" remotes_view
           "/pulp/api/v3/remotes/file/file/").
  - left. apply (bool_decide_unpack _). vm_compute. exact I.
  - vm_compute. reflexivity.
Defined.

(** ** Serializer names *)

Lemma startswith_refl p : Str.startswith p p = true.
Proof. rewrite <- (app_nil_r p) at 2. apply startswith_app. Qed.

Lemma contains_app_r sub a : Str.contains sub (a ++ sub) = true.
Proof.
  induction a as [|c a IH]; simpl.
  - destruct sub; simpl; [done|]. rewrite bool_decide_eq_true_2 by done.
    by rewrite startswith_refl.
  - rewrite IH. apply orb_true_r.
Qed.

Lemma serializer_name_request name :
  PulpAutoSchema._get_serializer_name name "request" = Str.drop_last 7 name.
Proof. reflexivity. Qed.

Lemma serializer_name_response name :
  PulpAutoSchema._get_serializer_name name "response" =
  if Str.contains "Response" name then name else name ++ "Response".
Proof. reflexivity. Qed.

(** X21.  The names of the request and response components.  For the
    direction [request] the last seven characters of the name are cut
    off: a name that ends in [Request] loses that suffix, and a name of
    seven characters or fewer becomes the empty name.  For the direction
    [response] the result always holds [Response]: a name that holds it
    anywhere is left as it is, any other gets it as a suffix, and doing
    this twice is doing it once. *)
Theorem serializer_names (name : list ascii) :
  PulpAutoSchema._get_serializer_name (name ++ "Request") "request" = name /\
  length (PulpAutoSchema._get_serializer_name name "request") = length name - 7 /\
  (length name <= 7 -> PulpAutoSchema._get_serializer_name name "request" = []) /\
  Str.contains "Response" (PulpAutoSchema._get_serializer_name name "response")
    = true /\
  (Str.contains "Response" name = true ->
   PulpAutoSchema._get_serializer_name name "response" = name) /\
  (Str.contains "Response" name = false ->
   PulpAutoSchema._get_serializer_name name "response" = name ++ "Response") /\
  PulpAutoSchema._get_serializer_name
    (PulpAutoSchema._get_serializer_name name "response") "response" =
  PulpAutoSchema._get_serializer_name name "response".
Proof.
  rewrite !serializer_name_request, !serializer_name_response.
  unfold Str.drop_last.
  split; [|split; [|split; [|split; [|split; [|split]]]]].
  - rewrite length_app. simpl.
    replace (length name + 7 - 7) with (length name) by lia.
    apply take_app_length.
  - rewrite length_take. lia.
  - intros Hle. replace (length name - 7) with 0 by lia. done.
  - destruct (Str.contains _ name) eqn:Hc; [done|].
    apply (contains_app_r "Response").
  - by intros ->.
  - by intros ->.
  - destruct (Str.contains _ name) eqn:Hc; [by rewrite Hc|].
    by rewrite (contains_app_r "Response").
Qed.

(** ** Request parsers *)

(** X22.  The request parsers.  [map_parsers] answers with the two form
    parsers exactly when the serializer has a file field and the method
    is [PUT], [PATCH] or [POST]; in every other case, a serializer
    without fields included, it hands on the parsers of the base class.
    Neither the names nor the order of the fields matter. *)
Theorem map_parsers_multipart parsers (fields : list (list ascii * serializer_field))
    (method : list ascii) :
  PulpAutoSchema.map_parsers parsers fields method =
  if bool_decide (FileField ∈ fields.*2) &&
     bool_decide (method ∈ [("PUT" : list ascii); ("PATCH" : list ascii);
                             ("POST" : list ascii)])
  then ["multipart/form-data" : list ascii;
        "application/x-www-form-urlencoded" : list ascii]
  else parsers.
Proof.
  induction fields as [|[name f] fields IH]; [done|].
  cbn [PulpAutoSchema.map_parsers]. rewrite IH. rewrite fmap_cons. cbn [snd].
  destruct (bool_decide (method ∈ _)) eqn:Hm.
  - rewrite !andb_true_r. destruct f.
    + rewrite !bool_decide_eq_true_2; [done|by left|done].
    + rewrite (bool_decide_eq_false_2 (OtherField = FileField)) by done.
      destruct (decide (FileField ∈ fields.*2)) as [Hin|Hin].
      * rewrite !bool_decide_eq_true_2; [done|by right|done].
      * rewrite !bool_decide_eq_false_2; [done| |done].
        by intros [[=]|?]%elem_of_cons.
  - by rewrite !andb_false_r.
Qed.

(** ** Tags *)

Lemma lower_char_slash c : Str.lower_char c = "/"%char -> c = "/"%char.
Proof. destruct c as [[] [] [] [] [] [] [] []]; by intros [=]. Qed.

Lemma upper_char_slash c : Str.upper_char c = "/"%char -> c = "/"%char.
Proof. destruct c as [[] [] [] [] [] [] [] []]; by intros [=]. Qed.

Lemma title_go_no_slash b s :
  Forall (fun c => c <> "/"%char) s ->
  Forall (fun c => c <> "/"%char) (Str.title_go b s).
Proof.
  intros Hs. revert b. induction Hs as [|c s Hc _ IH]; intros b; simpl; [done|].
  constructor; [|apply IH].
  destruct b; [intros ?%lower_char_slash|intros ?%upper_char_slash]; done.
Qed.

Lemma split_sep_free sep s :
  Forall (Forall (fun c => c <> sep)) (Str.split sep s).
Proof.
  induction s as [|c s IH]; simpl; [by repeat constructor|].
  destruct (decide (c = sep)) as [->|Hc]; [by constructor|].
  destruct (Str.split sep s) as [|w ws]; [by repeat constructor|].
  inversion_clear IH. constructor; [by constructor|done].
Qed.

Lemma split_cons_free sep c s :
  c <> sep ->
  Str.split sep (c :: s) =
  match Str.split sep s with
  | [] => [[c]]
  | w :: ws => (c :: w) :: ws
  end.
Proof. intros Hc. simpl. by rewrite decide_False. Qed.

Lemma split_free sep w : Forall (fun c => c <> sep) w -> Str.split sep w = [w].
Proof.
  induction 1 as [|c w Hc _ IH]; [done|].
  rewrite split_cons_free by done. by rewrite IH.
Qed.

Lemma split_app_sep sep w s :
  Forall (fun c => c <> sep) w ->
  Str.split sep (w ++ sep :: s) = w :: Str.split sep s.
Proof.
  induction 1 as [|c w Hc _ IH]; simpl.
  - by rewrite decide_True.
  - rewrite decide_False by done. by rewrite IH.
Qed.

(** Splitting what was joined gives back the pieces. *)
Lemma split_join sep (l : list (list ascii)) :
  l <> [] -> Forall (Forall (fun c => c <> sep)) l ->
  Str.split sep (Str.join [sep] l) = l.
Proof.
  intros Hne Hl. induction Hl as [|w l Hw Hl IH]; [done|].
  destruct l as [|v l]; [by apply split_free|].
  rewrite join_cons.
  change (w ++ [sep] ++ Str.join [sep] (v :: l))
    with (w ++ sep :: Str.join [sep] (v :: l)).
  rewrite split_app_sep by done. by rewrite IH by done.
Qed.

Lemma del_second_to_last_Forall (P : list ascii -> Prop) l :
  Forall P l -> Forall P (PulpAutoSchema.del_second_to_last l).
Proof.
  intros Hl. unfold PulpAutoSchema.del_second_to_last.
  apply Forall_app. split; [by apply Forall_take|by apply Forall_drop].
Qed.

Lemma tag_of_keys_no_slash keys :
  Forall (Forall (fun c => c <> "/"%char)) keys ->
  Forall (fun c => c <> "/"%char) (PulpAutoSchema.tag_of_keys keys).
Proof.
  intros Hk. unfold PulpAutoSchema.tag_of_keys.
  apply join_Forall; [by repeat constructor|].
  destruct (decide _); [|done].
  pose proof (del_second_to_last_Forall _ _ Hk) as Hd.
  destruct (PulpAutoSchema.del_second_to_last keys) as [|k ks]; [done|].
  inversion_clear Hd. constructor; [|done].
  apply Forall_app. split; [done|by repeat constructor].
Qed.

Lemma tag_of_path_no_slash tok :
  Forall (fun c => c <> "/"%char) (PulpAutoSchema.tag_of_path tok).
Proof.
  unfold PulpAutoSchema.tag_of_path. cbv zeta. apply tag_of_keys_no_slash.
  apply Forall_fmap. eapply Forall_impl; [apply split_sep_free|].
  intros w Hw. simpl. by apply title_go_no_slash.
Qed.

(** X23.  A view has one tag, and the tag made from a path holds no
    slash: [get_tags] returns one tag, which is the view's
    [pulp_tag_name] when that is set and not empty, and is otherwise free
    of slashes, whatever pieces the view, its parent viewset and the
    tokenized path contribute. *)
Theorem tags_hold_no_slash view (_tokenize_path : list (list ascii)) :
  exists tag,
    PulpAutoSchema.get_tags view _tokenize_path = [tag] /\
    (pulp_tag_name view = Some tag /\ tag <> [] \/
     (pulp_tag_name view = None \/ pulp_tag_name view = Some []) /\
     Forall (fun c => c <> "/"%char) tag).
Proof.
  unfold PulpAutoSchema.get_tags.
  destruct (pulp_tag_name view) as [[|c name]|].
  - eexists. split; [done|]. right. split; [by right|].
    apply tag_of_path_no_slash.
  - eexists. split; [done|]. by left.
  - eexists. split; [done|]. right. split; [by left|].
    apply tag_of_path_no_slash.
Qed.

Lemma tag_of_keys_long (k0 x y : list ascii) (mid : list (list ascii)) :
  PulpAutoSchema.tag_of_keys ((k0 :: mid) ++ [x; y]) =
  Str.join " " ((k0 ++ ":") :: mid ++ [y]).
Proof.
  unfold PulpAutoSchema.tag_of_keys.
  rewrite decide_True by (rewrite length_app; simpl; lia).
  unfold PulpAutoSchema.del_second_to_last.
  replace (length ((k0 :: mid) ++ [x; y]) - 2) with (length (k0 :: mid))
    by (rewrite length_app; simpl; lia).
  replace (length ((k0 :: mid) ++ [x; y]) - 1) with (length ((k0 :: mid) ++ [x]))
    by (rewrite !length_app; simpl; lia).
  rewrite take_app_length.
  replace ((k0 :: mid) ++ [x; y]) with (((k0 :: mid) ++ [x]) ++ [y])
    by by rewrite <- app_assoc.
  by rewrite drop_app_length.
Qed.

Lemma replace_api_prefix (s : list ascii) :
  Str.contains "pulp/api/v3/" s = false ->
  Str.replace "pulp/api/v3/" "" (("pulp/api/v3/" : list ascii) ++ s) = s.
Proof.
  intros Hs. rewrite <- (replace_absent "pulp/api/v3/" "" s Hs) at 2.
  exact (replace_prefix "p" "ulp/api/v3/" [] s).
Qed.

(** X24.  The tag of an endpoint is made of its pieces in title case,
    and the prefix of the API does not show in it.  For pieces that hold
    no slash and whose path does not hold [pulp/api/v3/], the tag of the
    pieces, and the tag of the pieces behind the tokens [pulp], [api],
    [v3], is the tag of the title-cased pieces; with three keys or more
    the key before the last is left out and the first gets a colon. *)
Theorem tag_of_endpoint_pieces (pieces : list (list ascii)) :
  pieces <> [] ->
  Forall (Forall (fun c => c <> "/"%char)) pieces ->
  Str.contains "pulp/api/v3/" (Str.join "/" pieces) = false ->
  PulpAutoSchema.tag_of_path pieces =
    PulpAutoSchema.tag_of_keys (Str.title <$> pieces) /\
  PulpAutoSchema.tag_of_path
    (("pulp" : list ascii) :: ("api" : list ascii) :: ("v3" : list ascii) :: pieces) =
    PulpAutoSchema.tag_of_keys (Str.title <$> pieces) /\
  (forall (k0 x y : list ascii) mid,
     PulpAutoSchema.tag_of_keys ((k0 :: mid) ++ [x; y]) =
     Str.join " " ((k0 ++ ":") :: mid ++ [y])) /\
  (forall k0 k1 : list ascii,
     PulpAutoSchema.tag_of_keys [k0; k1] = k0 ++ " " ++ k1) /\
  (forall k0 : list ascii, PulpAutoSchema.tag_of_keys [k0] = k0).
Proof.
  intros Hne Hfree Hmarker.
  split; [|split; [|split; [apply tag_of_keys_long|done]]].
  - unfold PulpAutoSchema.tag_of_path. cbv zeta.
    rewrite replace_absent by done.
    by rewrite (split_join "/") by done.
  - unfold PulpAutoSchema.tag_of_path. cbv zeta.
    replace (Str.join "/" (("pulp" : list ascii) :: ("api" : list ascii)
                             :: ("v3" : list ascii) :: pieces))
      with (("pulp/api/v3/" : list ascii) ++ Str.join "/" pieces)
      by by destruct pieces.
    rewrite replace_api_prefix by done.
    by rewrite (split_join "/") by done.
Qed.

Lemma tag_of_endpoint_pieces_witness :
  PulpAutoSchema.tag_of_path
    [("remotes" : list ascii); ("file" : list ascii); ("file" : list ascii)] =
    PulpAutoSchema.tag_of_keys
      (Str.title <$>
         [("remotes" : list ascii); ("file" : list ascii); ("file" : list ascii)]) /\
  PulpAutoSchema.tag_of_path
    (("pulp" : list ascii) :: ("api" : list ascii) :: ("v3" : list ascii)
       :: [("remotes" : list ascii); ("file" : list ascii); ("file" : list ascii)]) =
    PulpAutoSchema.tag_of_keys
      (Str.title <$>
         [("remotes" : list ascii); ("file" : list ascii); ("file" : list ascii)]) /\
  (forall (k0 x y : list ascii) mid,
     PulpAutoSchema.tag_of_keys ((k0 :: mid) ++ [x; y]) =
     Str.join " " ((k0 ++ ":") :: mid ++ [y])) /\
  (forall k0 k1 : list ascii,
     PulpAutoSchema.tag_of_keys [k0; k1] = k0 ++ " " ++ k1) /\
  (forall k0 : list ascii, PulpAutoSchema.tag_of_keys [k0] = k0).
Proof.
  apply (tag_of_endpoint_pieces
           [("remotes" : list ascii); ("file" : list ascii); ("file" : list ascii)]).
  - done.
  - apply (bool_decide_unpack _). vm_compute. exact I.
  - vm_compute. reflexivity.
Defined.

(** ** The views of the file plugin *)

Example get_tags_remotes :
  PulpAutoSchema.get_tags remotes_view [] = [("Remotes: File" : list ascii)].
Proof. vm_compute. reflexivity. Qed.

Example get_tags_versions :
  PulpAutoSchema.get_tags versions_view [] =
  [("Repositories: File Versions" : list ascii)].
Proof. vm_compute. reflexivity. Qed.

Example convert_versions :
  PulpSchemaGenerator.convert_endpoint_path_params
    "/pulp/api/v3/repositories/file/file/{repository_pk}/versions/{number}/repair/"
    versions_view =
  Ok ("{file_file_file_repository_version_href}repair/" : list ascii).
Proof. vm_compute. reflexivity. Qed.

Example convert_remotes :
  PulpSchemaGenerator.convert_endpoint_path_params
    "/pulp/api/v3/remotes/file/file/{pulp_id}/" remotes_view =
  Ok ("{file_remote_href}" : list ascii).
Proof. vm_compute. reflexivity. Qed.
